(** * Bloombox telemetry: events, contexts and the event queue

    A shallow embedding of
      - [src/telemetry/event.js]  (bloombox.telemetry.BaseEvent),
      - the event queue module    (bloombox.telemetry.internals.EventQueue,
                                   bloombox.telemetry.prepareQueuedEvent),
      - the setup module          (bloombox.telemetry.setup),
    followed by the properties of the telemetry specification that concern them.

    JavaScript objects that are mutated or shared are kept in explicit state:
    the event under consideration ([this]), a store of protobuf context
    messages addressed by reference, the dispatch state fed by
    [bloombox.telemetry.enqueue], and the trace of user callbacks that were
    invoked.  Exceptions are results: a computation returns [Return a] or
    [Throw e] together with the state reached when it stopped. *)

From stdpp Require Import base option list gmap strings pretty.
From Stdlib Require Import ZArith Lia PrimFloat.

Open Scope Z_scope.
Open Scope string_scope.
Open Scope list_scope.

(** ** JavaScript values that matter here *)

Module Js.

(** [!s] is true exactly for the empty string. *)
Definition truthy_string (s : string) : bool :=
  match s with
  | EmptyString => false
  | String _ _ => true
  end.

(** Timestamps are numbers, that is IEEE 754 doubles.  The falsy ones are
    zero, of either sign, and NaN, which is the one not equal to itself. *)
Definition truthy_number (n : float) : bool :=
  negb (n =? 0)%float && (n =? n)%float.

(** [x || d] where [x] may be [undefined] (None). *)
Definition or_else_string (x : option string) (d : string) : string :=
  match x with
  | Some s => if truthy_string s then s else d
  | None => d
  end.

Definition or_else_number (x : option float) (d : float) : float :=
  match x with
  | Some n => if truthy_number n then n else d
  | None => d
  end.

(** What can sit in a callback slot: [null], a function (known by a name,
    and by whether a call to it throws; it is taken not to call back into
    the event), or some value that is not callable (of which only its
    truthiness matters). *)
Inductive value :=
| Null
| Function (name : string) (throws : bool)
| Other (truthy : bool).

Definition truthy (v : value) : bool :=
  match v with
  | Null => false
  | Function _ _ => true
  | Other b => b
  end.

(** [typeof v === 'function'] *)
Definition is_function (v : value) : bool :=
  match v with
  | Function _ _ => true
  | _ => false
  end.

(** [v || null] *)
Definition or_null (v : value) : value := if truthy v then v else Null.

(** Whether a call of [v] ends in an exception. *)
Definition throws (v : value) : bool :=
  match v with
  | Function _ t => t
  | _ => false
  end.

End Js.

(** ** Exceptions and results *)

Inductive Exn :=
| ContextException (message : string)   (* bloombox.telemetry.ContextException *)
| TypeError                             (* property access on a missing object *)
| CallbackError (name : string).        (* raised by a user callback *)

Inductive result (A : Type) :=
| Return (a : A)
| Throw (e : Exn).
Arguments Return {A} a.
Arguments Throw {A} e.

Definition is_context_exception {A} (r : result A) : bool :=
  match r with
  | Throw (ContextException _) => true
  | _ => false
  end.

(** ** Data *)

(** Object identity of a protobuf message. *)
Abbreviation loc := positive.

(** A [proto.analytics.Context] message: the fields that are set, by name.
    A getter of a field that is not set yields the empty string. *)
Abbreviation Proto := (gmap string string).

Definition getField (name : string) (p : gmap string string) : string :=
  default EmptyString (p !! name).
Definition getFingerprint : gmap string string -> string := getField "fingerprint".
Definition getGroup : gmap string string -> string := getField "group".

(** bloombox.telemetry.Routine: the RPC method designators. *)
Definition Routine := string.

(** A payload object: JSON-serialisable fields. *)
Abbreviation Payload := (gmap string string).

Inductive OperationStatus := OK | ERROR.

(** The two trampolines as functions: [BaseEvent.prototype.onSuccess] and
    [BaseEvent.prototype.onFailure] themselves, with no receiver bound. *)
Inductive Trampoline := BaseEvent_onSuccess | BaseEvent_onFailure.

(** bloombox.telemetry.rpc.TelemetryRPC, as [generateRPC] builds it: the
    identifier, the method, the two trampolines, which are handed over as
    [this.onSuccess] and [this.onFailure], unbound, the body, which is the
    resolved payload together with the rendered context, and the merged
    context. *)
Record TelemetryRPC := {
  rpc_uuid : string;
  rpc_method : Routine;
  rpc_onSuccess : Trampoline;
  rpc_onFailure : Trampoline;
  rpc_payload : gmap string string;
  rpc_context : loc
}.

(** The identifier generator bloombox.util.generateUUID: a source of
    identifiers, each call taking the next one. *)
Record UuidGen := {
  stream : nat -> string;
  position : nat
}.

Definition generateUUID (g : UuidGen) : string * UuidGen :=
  (stream g (position g), {| stream := stream g; position := S (position g) |}).

(** ** goog.structs.PriorityQueue

    The queue of the Closure Library, by its contract: [enqueue] files a value
    under a numeric key, [dequeue] removes and returns a value with the
    smallest key, and returns [undefined] (None) on an empty queue, which it
    leaves empty.  The representation is the list of entries in the order in
    which they leave; among entries with equal keys that is the order of
    arrival here, which the library does not promise and nothing below
    relies on. *)

Module PriorityQueue.
Section WithValues.
Context {V : Type}.

Fixpoint insert (key : Z) (v : V) (q : list (Z * V)) : list (Z * V) :=
  match q with
  | [] => [(key, v)]
  | (k, w) :: rest =>
      if (key <? k)%Z then (key, v) :: (k, w) :: rest
      else (k, w) :: insert key v rest
  end.

Definition enqueue (priority : Z) (v : V) (q : list (Z * V)) : list (Z * V) :=
  insert priority v q.

Definition dequeue (q : list (Z * V)) : option V * list (Z * V) :=
  match q with
  | [] => (None, [])
  | (_, v) :: rest => (Some v, rest)
  end.

Definition getCount (q : list (Z * V)) : nat := length q.

Fixpoint sorted (q : list (Z * V)) : Prop :=
  match q with
  | [] => True
  | (k, _) :: rest => (forall e, e ∈ rest -> k <= fst e) /\ sorted rest
  end.
End WithValues.
End PriorityQueue.

(** ** The event queue module *)

Module EventQueue.

(** bloombox.telemetry.internals.QueuedEvent *)
Record QueuedEvent := {
  uuid : string;
  rpc : TelemetryRPC
}.

(** bloombox.telemetry.prepareQueuedEvent(rpc, opt_uuid); [None] is an
    omitted [opt_uuid].  The test is [=== undefined], so an empty string
    that is passed is kept. *)
Definition prepareQueuedEvent (rpc : TelemetryRPC) (opt_uuid : option string)
    (g : UuidGen) : QueuedEvent * UuidGen :=
  match opt_uuid with
  | None =>
      let (uuid, g') := generateUUID g in
      ({| uuid := uuid; rpc := rpc |}, g')
  | Some uuid => ({| uuid := uuid; rpc := rpc |}, g)
  end.

(** The state of an EventQueue object is that of its [queue] field, plus the
    log lines written. *)
Record t := {
  queue : list (Z * QueuedEvent);
  logged : list string
}.

Definition new : t := {| queue := []; logged := [] |}.

Definition enqueue (priority : Z) (ev : QueuedEvent) (q : t) : t :=
  {| queue := PriorityQueue.enqueue priority ev (queue q);
     logged := logged q ++
       ["Enqueued telemetry event with UUID: " +:+ uuid ev +:+ "."] |}.

Section Dequeue.
(** The mapper is a function of the caller, taken to return from every
    call; [W] is whatever it acts on.  Its argument is [None] when it is
    handed [undefined]. *)
Context {W : Type}.
Variable mapper : option QueuedEvent -> W -> W.
Variable BATCH_SIZE : Z.

(** The [while (countToDequeue > 0)] loop.  [fuel] bounds the number of
    iterations; [None] means that it ran out. *)
Fixpoint dequeue_loop (fuel : nat) (countToDequeue : Z) (q : t) (w : W)
    : option (t * W) :=
  if (0 <? countToDequeue)%Z then
    match fuel with
    | O => None
    | S fuel' =>
        let (ev, rest) := PriorityQueue.dequeue (queue q) in
        let w' := mapper ev w in
        dequeue_loop fuel' (countToDequeue - 1)
          {| queue := rest; logged := logged q |} w'
    end
  else Some (q, w).

(** [dequeue(mapper, opt_amt)]; [None] is an omitted [opt_amt].  Amounts
    are whole numbers here, which stand for the numbers of the source up to
    2^53, the range in which taking one away is exact; fractions, NaN and
    the numbers beyond are not covered.  The counter goes down by one per
    iteration, so as many iterations as its initial value (none, if that is
    not positive) are enough. *)
Definition dequeue (opt_amt : option Z) (q : t) (w : W) : option (t * W) :=
  let countToDequeue :=
    match opt_amt with
    | None => BATCH_SIZE
    | Some amt => amt
    end in
  dequeue_loop (Z.to_nat countToDequeue) countToDequeue q w.
End Dequeue.

(** The arguments of the successive calls of the mapper in [n] iterations. *)
Fixpoint handed (n : nat) (q : list (Z * QueuedEvent)) : list (option QueuedEvent) :=
  match n with
  | O => []
  | S n' =>
      fst (PriorityQueue.dequeue q) :: handed n' (snd (PriorityQueue.dequeue q))
  end.

(** The counter of the loop on the numbers of the source, IEEE 754 doubles:
    how many times [while (countToDequeue > 0) countToDequeue--] goes round,
    [None] when [fuel] rounds are not enough.  On whole numbers up to 2^53
    this is the number itself, as [dequeue] above has it. *)
Fixpoint rounds (fuel : nat) (countToDequeue : float) : option nat :=
  if (0 <? countToDequeue)%float then
    match fuel with
    | O => None
    | S fuel' => option_map S (rounds fuel' (countToDequeue - 1)%float)
    end
  else Some O.

(** A mapper that only records what it was called with. *)
Definition recording : option QueuedEvent -> list (option QueuedEvent)
                       -> list (option QueuedEvent) :=
  fun ev calls => calls ++ [ev].

End EventQueue.

(** ** The base event *)

Module Event.

Record BaseEvent := {
  uuid : string;
  operation : Routine;
  (* the bloombox.telemetry.Context given at construction, by the fields
     that it exports *)
  context : gmap string string;
  payload : option (gmap string string);
  occurred : float;
  successCallback : Js.value;
  failureCallback : Js.value
}.

Definition set_successCallback (v : Js.value) (e : BaseEvent) : BaseEvent :=
  {| uuid := uuid e; operation := operation e; context := context e;
     payload := payload e; occurred := occurred e;
     successCallback := v; failureCallback := failureCallback e |}.

Definition set_failureCallback (v : Js.value) (e : BaseEvent) : BaseEvent :=
  {| uuid := uuid e; operation := operation e; context := context e;
     payload := payload e; occurred := occurred e;
     successCallback := successCallback e; failureCallback := v |}.

(** What the constructor reads from its surroundings: the identifier
    generator and the clock behind [+(new Date)]. *)
Record Env := {
  uuids : UuidGen;
  clock : float
}.

(** [new bloombox.telemetry.BaseEvent(context, method, opt_payload,
    opt_occurred, opt_uuid)]; [None] is an omitted argument.  The right-hand
    side of [||] is evaluated only when the left-hand side is falsy, so the
    generator advances only when it is asked.  Freezing the payload has no
    counterpart: values here cannot be mutated. *)
Definition new (context : gmap string string) (method : Routine)
    (opt_payload : option (gmap string string)) (opt_occurred : option float)
    (opt_uuid : option string) (env : Env) : BaseEvent * Env :=
  let (id, gen) :=
    match opt_uuid with
    | Some u =>
        if Js.truthy_string u then (u, uuids env) else generateUUID (uuids env)
    | None => generateUUID (uuids env)
    end in
  ({| uuid := id;
      operation := method;
      context := context;
      payload := opt_payload;
      occurred := Js.or_else_number opt_occurred (clock env);
      successCallback := Js.Null;
      failureCallback := Js.Null |},
   {| uuids := gen; clock := clock env |}).

(** A call of a user callback that was made. *)
Inductive Invocation :=
| SuccessCalled (name : string) (status : OperationStatus)
| FailureCalled (name : string) (op : OperationStatus)
    (error : option string) (code : option Z).

(** What [bloombox.telemetry.enqueue] acts on. *)
Record Dispatch := {
  eventQueue : EventQueue.t;
  generator : UuidGen
}.

Record Machine := {
  this : BaseEvent;
  heap : gmap loc (gmap string string);   (* context messages, by reference *)
  ambient : gmap string string;           (* the global context singleton *)
  dispatchState : Dispatch;
  invoked : list Invocation;              (* oldest first *)
  aborted : list string;
  logs : list string
}.

Definition with_this (f : BaseEvent -> BaseEvent) (m : Machine) : Machine :=
  {| this := f (this m); heap := heap m; ambient := ambient m;
     dispatchState := dispatchState m; invoked := invoked m;
     aborted := aborted m; logs := logs m |}.

Definition with_heap (h : gmap loc (gmap string string)) (m : Machine) : Machine :=
  {| this := this m; heap := h; ambient := ambient m;
     dispatchState := dispatchState m; invoked := invoked m;
     aborted := aborted m; logs := logs m |}.

Definition with_dispatchState (d : Dispatch) (m : Machine) : Machine :=
  {| this := this m; heap := heap m; ambient := ambient m;
     dispatchState := d; invoked := invoked m;
     aborted := aborted m; logs := logs m |}.

Definition with_invoked (i : list Invocation) (m : Machine) : Machine :=
  {| this := this m; heap := heap m; ambient := ambient m;
     dispatchState := dispatchState m; invoked := i;
     aborted := aborted m; logs := logs m |}.

Definition with_aborted (a : list string) (m : Machine) : Machine :=
  {| this := this m; heap := heap m; ambient := ambient m;
     dispatchState := dispatchState m; invoked := invoked m;
     aborted := a; logs := logs m |}.

Definition with_logs (l : list string) (m : Machine) : Machine :=
  {| this := this m; heap := heap m; ambient := ambient m;
     dispatchState := dispatchState m; invoked := invoked m;
     aborted := aborted m; logs := l |}.

(** *** Computations: state and exceptions *)

Definition Eff (A : Type) : Type := Machine -> result A * Machine.

Definition ret {A} (a : A) : Eff A := fun m => (Return a, m).
Definition throw {A} (e : Exn) : Eff A := fun m => (Throw e, m).
Definition bind {A B} (c : Eff A) (k : A -> Eff B) : Eff B :=
  fun m =>
    match c m with
    | (Return a, m') => k a m'
    | (Throw e, m') => (Throw e, m')
    end.
Definition gets {A} (f : Machine -> A) : Eff A := fun m => (Return (f m), m).
Definition modify (f : Machine -> Machine) : Eff unit := fun m => (Return tt, f m).

Notation "'let!' x ':=' c 'in' k" := (bind c (fun x => k))
  (at level 10, x name, c at level 100, k at level 200).
Notation "c ';;;' k" := (bind c (fun _ => k))
  (at level 100, k at level 200, right associativity).

(** Operations on the store of messages alone. *)
Definition HeapOp (A : Type) : Type :=
  gmap loc (gmap string string) -> result A * gmap loc (gmap string string).

Definition lift_heap {A} (op : HeapOp A) : Eff A :=
  fun m => let (r, h) := op (heap m) in (r, with_heap h m).

(** A new message object. *)
Definition alloc (p : gmap string string) : HeapOp loc :=
  fun h => let l := fresh (dom h) in (Return l, <[l := p]> h).

(** A getter called on a message. *)
Definition read (get : gmap string string -> string) (l : loc) : HeapOp string :=
  fun h =>
    match h !! l with
    | Some p => (Return (get p), h)
    | None => (Throw TypeError, h)
    end.

Definition log (message : string) : Eff unit :=
  modify (fun m => with_logs (logs m ++ [message]) m).

(** *** Methods of BaseEvent *)

Section Methods.
(** The abstract methods, which each concrete event type supplies. *)
Variable rpcMethod : BaseEvent -> Routine.
Variable renderPayload : BaseEvent -> option (gmap string string).
(** [bloombox.util.proto.merge(local, global)], which works on messages. *)
Variable proto_merge : loc -> loc -> HeapOp loc.
(** [bloombox.telemetry.enqueue(rpc)], which works on the dispatch state. *)
Variable telemetry_enqueue : TelemetryRPC -> Dispatch -> Dispatch.

(** [this.context.export()]: the event's own context as a new message. *)
Definition context_export : Eff loc :=
  let! local := gets (fun m => context (this m)) in
  lift_heap (alloc local).

(** [bloombox.telemetry.globalContext().export()]: the ambient context as
    a new message. *)
Definition globalContext_export : Eff loc :=
  let! global := gets ambient in
  lift_heap (alloc global).

(** [bloombox.telemetry.abort(uuid)], by the identifiers it was given. *)
Definition telemetry_abort (id : string) : Eff unit :=
  modify (fun m => with_aborted (aborted m ++ [id]) m).

(** A call [cb(status)] of the function in the success slot. *)
Definition call_success (cb : Js.value) (status : OperationStatus) : Eff unit :=
  match cb with
  | Js.Function name throws =>
      modify (fun m => with_invoked (invoked m ++ [SuccessCalled name status]) m) ;;;
      if throws then throw (CallbackError name) else ret tt
  | _ => ret tt
  end.

(** A call [cb(op, error, code)] of the function in the failure slot. *)
Definition call_failure (cb : Js.value) (op : OperationStatus)
    (error : option string) (code : option Z) : Eff unit :=
  match cb with
  | Js.Function name throws =>
      modify (fun m =>
        with_invoked (invoked m ++ [FailureCalled name op error code]) m) ;;;
      if throws then throw (CallbackError name) else ret tt
  | _ => ret tt
  end.

Definition onSuccess (status : OperationStatus) : Eff unit :=
  let! cb := gets (fun m => successCallback (this m)) in
  (if Js.truthy cb && Js.is_function cb then call_success cb status
   else ret tt) ;;;
  modify (with_this (set_successCallback Js.Null)).

Definition onFailure (op : OperationStatus) (error : option string)
    (code : option Z) : Eff unit :=
  let! cb := gets (fun m => failureCallback (this m)) in
  (if Js.truthy cb && Js.is_function cb then call_failure cb op error code
   else ret tt) ;;;
  modify (with_this (set_failureCallback Js.Null)).

(** The trampolines look for the callback on their receiver.  [generateRPC]
    hands them over with none bound, so a call through the request,
    [rpc.onSuccess(status)], runs with the request as receiver.  What a call
    with a receiver other than the event does depends on the receiver's own
    property [successCallback], here [slot] ([Js.Other false] when it has
    none): it is called if it is a function, and set to [null], which is the
    result here.  The event is not looked at. *)
Definition onSuccess_on_other (slot : Js.value) (status : OperationStatus)
    : Eff Js.value :=
  (if Js.truthy slot && Js.is_function slot then call_success slot status
   else ret tt) ;;;
  ret Js.Null.

Definition onFailure_on_other (slot : Js.value) (op : OperationStatus)
    (error : option string) (code : option Z) : Eff Js.value :=
  (if Js.truthy slot && Js.is_function slot then call_failure slot op error code
   else ret tt) ;;;
  ret Js.Null.

(** [onSuccess(status)] on the event when the function in the slot, while it
    runs for this call, itself calls [onSuccess(inner)] on the event, once,
    and then returns: the slot is cleared only after the callback is back, so
    the call from inside finds it filled. *)
Definition onSuccess_reentered (status inner : OperationStatus) : Eff unit :=
  let! cb := gets (fun m => successCallback (this m)) in
  (if Js.truthy cb && Js.is_function cb
   then call_success cb status ;;; onSuccess inner
   else ret tt) ;;;
  modify (with_this (set_successCallback Js.Null)).

Definition renderUUID : Eff string :=
  gets (fun m => uuid (this m)).

Definition validateContext (context : loc) : Eff unit :=
  let! fingerprint := lift_heap (read getFingerprint context) in
  (if negb (Js.truthy_string fingerprint)
   then throw (ContextException "Missing device fingerprint ID.")
   else ret tt) ;;;
  let! group := lift_heap (read getGroup context) in
  (if negb (Js.truthy_string group)
   then throw (ContextException "Missing device session ID.")
   else ret tt).

Definition renderContext (global : loc) : Eff loc :=
  let! local := context_export in
  let! merged := lift_heap (proto_merge local global) in
  validateContext merged ;;;
  ret merged.

(** The body is the resolved payload with the rendered context under
    ['context']; both are kept in the RPC record.  The base64 rendering
    and the lengths are computed for the log line only. *)
Definition generateRPC : Eff TelemetryRPC :=
  let! globalContext := globalContext_export in
  let! mergedContext := renderContext globalContext in
  let! method := gets (fun m => rpcMethod (this m)) in
  let! rpcPayload := gets (fun m => renderPayload (this m)) in
  let! id := renderUUID in
  let resolvedPayload :=
    match rpcPayload with
    | None => ∅
    | Some p => p
    end in
  log "Preparing RPC." ;;;
  ret {| rpc_uuid := id;
         rpc_method := method;
         rpc_onSuccess := BaseEvent_onSuccess;
         rpc_onFailure := BaseEvent_onFailure;
         rpc_payload := resolvedPayload;
         rpc_context := mergedContext |}.

Definition dispatch (success failure : Js.value) : Eff unit :=
  modify (with_this (set_successCallback (Js.or_null success))) ;;;
  modify (with_this (set_failureCallback (Js.or_null failure))) ;;;
  let! rpc := generateRPC in
  modify (fun m => with_dispatchState (telemetry_enqueue rpc (dispatchState m)) m).

Definition abort : Eff unit :=
  let! id := renderUUID in
  telemetry_abort id.

Definition send : Eff unit := dispatch Js.Null Js.Null.

Definition renderOccurrence (now : float) : Eff float :=
  gets (fun m =>
    if Js.truthy_number (occurred (this m)) then occurred (this m) else now).

(** *** Sequences of calls on one event *)

Inductive Call :=
| Call_dispatch (success failure : Js.value)
| Call_send
| Call_abort
| Call_onSuccess (status : OperationStatus)
| Call_onFailure (op : OperationStatus) (error : option string) (code : option Z)
| Call_renderUUID
| Call_renderOccurrence (now : float)
| Call_renderContext (global : loc)
| Call_generateRPC.

(** The state after a call, whether it returned or threw. *)
Definition perform (c : Call) (m : Machine) : Machine :=
  match c with
  | Call_dispatch s f => snd (dispatch s f m)
  | Call_send => snd (send m)
  | Call_abort => snd (abort m)
  | Call_onSuccess status => snd (onSuccess status m)
  | Call_onFailure op error code => snd (onFailure op error code m)
  | Call_renderUUID => snd (renderUUID m)
  | Call_renderOccurrence now => snd (renderOccurrence now m)
  | Call_renderContext g => snd (renderContext g m)
  | Call_generateRPC => snd (generateRPC m)
  end.

Definition perform_all (cs : list Call) (m : Machine) : Machine :=
  fold_left (fun m c => perform c m) cs m.

(** The calls a transport can make on the trampolines. *)
Definition is_trampoline (c : Call) : bool :=
  match c with
  | Call_onSuccess _ | Call_onFailure _ _ _ => true
  | _ => false
  end.
End Methods.

(** Modelled from the spec: [bloombox.util.proto.merge] is not among the
    sources.  The specification has it merge the local context onto the
    ambient one field by field, a local value overriding the ambient one and
    a field of only one of them carried through, into a message of its own:
    the ambient context is not mutated. *)
Definition spec_merge (local global : loc) : HeapOp loc :=
  fun h =>
    match h !! local, h !! global with
    | Some pl, Some pg => alloc (pl ∪ pg) h
    | _, _ => (Throw TypeError, h)
    end.

(** The callbacks as [dispatch] registers them. *)
Definition register (success failure : Js.value) (e : BaseEvent) : BaseEvent :=
  set_failureCallback (Js.or_null failure)
    (set_successCallback (Js.or_null success) e).

(** An event with other values in its two callback slots. *)
Definition slots_set (s f : Js.value) (e : BaseEvent) : BaseEvent :=
  set_failureCallback f (set_successCallback s e).

(** The arguments of the first [onSuccess] and of the first [onFailure]
    among some calls. *)
Fixpoint first_success (cs : list Call) : option OperationStatus :=
  match cs with
  | [] => None
  | Call_onSuccess status :: _ => Some status
  | _ :: rest => first_success rest
  end.

Fixpoint first_failure (cs : list Call)
    : option (OperationStatus * option string * option Z) :=
  match cs with
  | [] => None
  | Call_onFailure op error code :: _ => Some (op, error, code)
  | _ :: rest => first_failure rest
  end.

(** The one call of the function [cb], if it is one, by the first
    trampoline of its kind. *)
Definition success_calls (cb : Js.value) (cs : list Call) : list Invocation :=
  match cb, first_success cs with
  | Js.Function name _, Some status => [SuccessCalled name status]
  | _, _ => []
  end.

Definition failure_calls (cb : Js.value) (cs : list Call) : list Invocation :=
  match cb, first_failure cs with
  | Js.Function name _, Some (op, error, code) => [FailureCalled name op error code]
  | _, _ => []
  end.

(** A merge that leaves the message given as the global one as it is. *)
Definition keeps_global (merge : loc -> loc -> HeapOp loc) : Prop :=
  forall local global h p,
    h !! global = Some p -> snd (merge local global h) !! global = Some p.

Definition is_success (i : Invocation) : bool :=
  match i with SuccessCalled _ _ => true | FailureCalled _ _ _ _ => false end.
Definition is_failure (i : Invocation) : bool :=
  match i with SuccessCalled _ _ => false | FailureCalled _ _ _ _ => true end.

End Event.

(** ** The setup module *)

Module Setup.

(** What [bloombox.telemetry.setup] acts on: the configured endpoint
    [bloombox.config.endpoints.telemetry], the calls of the completion
    callback (each with the endpoint that was configured when it ran), and
    the two logs. *)
Record State := {
  endpoints_telemetry : string;
  callback_calls : list string;
  errors : list string;
  messages : list string
}.

Section WithDefault.
Variable TELEMETRY_API_ENDPOINT : string.

(** [setup(partner, location, apikey, callback, endpoint)]; [None] is an
    omitted [endpoint]. *)
Definition setup (partner location apikey : string)
    (endpoint : option string) (s : State) : State :=
  if negb (Js.truthy_string partner) || negb (Js.truthy_string location) then
    {| endpoints_telemetry := endpoints_telemetry s;
       callback_calls := callback_calls s;
       errors := errors s ++ ["Partner or location code is not defined."];
       messages := messages s |}
  else
    let configured := Js.or_else_string endpoint TELEMETRY_API_ENDPOINT in
    {| endpoints_telemetry := configured;
       callback_calls := callback_calls s ++ [configured];
       errors := errors s;
       messages := messages s ++ ["Telemetry is ready for use."] |}.
End WithDefault.

End Setup.

(** ** The base event: the base64 rendering of a byte array *)

Module Encoding.

(** [CHUNK_SZ] of [encodeUint8Array_]. *)
Definition CHUNK_SZ : Z := 0x8000.

(** [u8a.subarray(b, e)] for [0 <= b <= e]: the bytes from index [b] up to,
    not including, index [e], as far as the array goes. *)
Definition subarray (b e : Z) (u8a : list Byte.byte) : list Byte.byte :=
  take (Z.to_nat (e - b)) (drop (Z.to_nat b) u8a).

(** [String.fromCharCode.apply(null, bytes)]: one character per byte. *)
Definition fromCharCode (bytes : list Byte.byte) : string :=
  String.string_of_list_byte bytes.

(** [c.join('')] *)
Definition join (c : list string) : string :=
  fold_right String.append EmptyString c.

(** The [for (let i = 0; i < u8a.length; i += sz)] loop, which pushes the
    characters of one chunk per iteration; [fuel] bounds the number of
    iterations, [None] means that it ran out. *)
Fixpoint chunks_loop (sz : Z) (fuel : nat) (i : Z) (u8a : list Byte.byte)
    (c : list string) : option (list string) :=
  if (i <? Z.of_nat (length u8a))%Z then
    match fuel with
    | O => None
    | S fuel' =>
        chunks_loop sz fuel' (i + sz) u8a
          (c ++ [fromCharCode (subarray i (i + sz) u8a)])
    end
  else Some c.

Section WithBtoa.
(** [btoa] of the platform. *)
Variable btoa : string -> string.

(** [encodeUint8Array_(u8a)].  The index grows by [CHUNK_SZ] per iteration, so
    as many iterations as the array has bytes are enough. *)
Definition encodeUint8Array_ (u8a : list Byte.byte) : option string :=
  match chunks_loop CHUNK_SZ (length u8a) 0 u8a [] with
  | Some c => Some (btoa (join c))
  | None => None
  end.
End WithBtoa.

End Encoding.

(** ** The setup module: boot *)

Module Boot.

(** What [boot] and [sendInitialEvents] act on: the answer of
    [bloombox.telemetry.didOptOut()], which they only read, the two logs,
    and the calls of [bloombox.telemetry.ping] made so far. *)
Record State := {
  optedOut : bool;
  warnings : list string;
  messages : list string;
  pings : nat
}.

Definition warn (message : string) (s : State) : State :=
  {| optedOut := optedOut s; warnings := warnings s ++ [message];
     messages := messages s; pings := pings s |}.

Definition log (message : string) (s : State) : State :=
  {| optedOut := optedOut s; warnings := warnings s;
     messages := messages s ++ [message]; pings := pings s |}.

(** A call of [bloombox.telemetry.ping]; its callback runs when the reply
    comes, see [ping_callback]. *)
Definition ping (s : State) : State :=
  {| optedOut := optedOut s; warnings := warnings s;
     messages := messages s; pings := S (pings s) |}.

(** The user changing their mind, between two calls. *)
Definition set_optedOut (b : bool) (s : State) : State :=
  {| optedOut := b; warnings := warnings s;
     messages := messages s; pings := pings s |}.

Definition sendInitialEvents (s : State) : State :=
  if optedOut s then
    warn "User opted-out of telemetry, skipping initial events." s
  else
    log "Would send initial events." s.

(** The function that [boot] hands to [ping], called with the latency, a
    whole number of milliseconds. *)
Definition ping_callback (latency : Z) (s : State) : State :=
  sendInitialEvents
    (log ("Telemetry service is online. Ping latency: " +:+
          EmptyString +:+ pretty latency +:+ "ms.") s).

Definition boot (s : State) : State :=
  if optedOut s then
    warn "User opted-out of telemetry, skipping initial ping." s
  else
    ping (log "Sending initial telemetry ping..." s).

End Boot.

(** ** Sequences of operations *)

Module Scenario.

(** [q.enqueue(priority, ev)] for each of some items, in their order. *)
Definition enqueue_all (items : list (Z * EventQueue.QueuedEvent))
    (q : EventQueue.t) : EventQueue.t :=
  fold_left (fun q item => EventQueue.enqueue (fst item) (snd item) q) items q.

End Scenario.

(** ** Values for the examples *)

Module Sample.
Import Event.

Definition local_context : gmap string string :=
  {[ "fingerprint" := "device-1"; "section" := "menu" ]}.

Definition ambient_context : gmap string string :=
  {[ "fingerprint" := "device-0"; "group" := "session-1"; "partner" := "acme" ]}.

Definition identifiers : UuidGen :=
  {| stream := fun _ => "generated-uuid"; position := 0 |}.

Definition env : Env :=
  {| uuids := identifiers; clock := 1500000000000%float |}.

(** An event constructed with an identifier and without a timestamp. *)
Definition event : BaseEvent :=
  fst (new local_context "event" None None (Some "event-1") env).

Definition machine_of (e : BaseEvent) (global : gmap string string) : Machine :=
  {| this := e;
     heap := ∅;
     ambient := global;
     dispatchState := {| eventQueue := EventQueue.new; generator := identifiers |};
     invoked := [];
     aborted := [];
     logs := [] |}.

Definition machine : Machine := machine_of event ambient_context.

(** A concrete event type: the method and the payload are those given at
    construction. *)
Definition rpcMethod (e : BaseEvent) : Routine := operation e.
Definition renderPayload (e : BaseEvent) : option (gmap string string) := payload e.

(** An [enqueue] that prepares the queued event under the identifier of
    the request and files it under priority 0. *)
Definition enqueue (rpc : TelemetryRPC) (d : Dispatch) : Dispatch :=
  let (ev, g) := EventQueue.prepareQueuedEvent rpc (Some (rpc_uuid rpc)) (generator d) in
  {| eventQueue := EventQueue.enqueue 0 ev (eventQueue d); generator := g |}.

(** The machine once the ambient context has been exported, as message 1,
    and the fields of the two contexts merged. *)
Definition ready : Machine := snd (globalContext_export machine).
Definition merged_fields : gmap string string := local_context ∪ ambient_context.

Definition queued (id : string) : EventQueue.QueuedEvent :=
  {| EventQueue.uuid := id;
     EventQueue.rpc := {| rpc_uuid := id; rpc_method := "event";
                          rpc_onSuccess := BaseEvent_onSuccess;
                          rpc_onFailure := BaseEvent_onFailure;
                          rpc_payload := ∅; rpc_context := 1%positive |} |}.

(** A machine whose ambient context has no group: the request cannot be
    generated. *)
Definition machine_without_group : Machine := machine_of event ∅.

(** A state of the boot sequence, the user not having opted out. *)
Definition boot_state : Boot.State :=
  {| Boot.optedOut := false; Boot.warnings := []; Boot.messages := [];
     Boot.pings := 0 |}.

Definition setup_state : Setup.State :=
  {| Setup.endpoints_telemetry := "unset"; Setup.callback_calls := [];
     Setup.errors := []; Setup.messages := [] |}.
End Sample.

(** * Properties *)

(** ** The priority queue *)

Section PriorityQueueFacts.
Context {V : Type}.
Implicit Types (q : list (Z * V)) (v : V) (k : Z).

Lemma insert_elem k v q e :
  e ∈ PriorityQueue.insert k v q -> e = (k, v) \/ e ∈ q.
Proof.
  induction q as [|[k' w] rest IH]; simpl.
  - intros H. apply list_elem_of_singleton in H. by left.
  - destruct (k <? k')%Z.
    + intros H. apply elem_of_cons in H. destruct H; [by left | by right].
    + intros H. apply elem_of_cons in H. destruct H as [->|H].
      * right. apply elem_of_cons. by left.
      * destruct (IH H) as [->|Hin]; [by left|].
        right. apply elem_of_cons. by right.
Qed.

(** Entries leave in the order of their keys. *)
Lemma insert_sorted k v q :
  PriorityQueue.sorted q -> PriorityQueue.sorted (PriorityQueue.insert k v q).
Proof.
  induction q as [|[k' w] rest IH]; simpl.
  - intros _. split; [|done]. intros e He. by apply elem_of_nil in He.
  - intros [Hmin Hrest]. destruct (k <? k')%Z eqn:Hlt.
    + simpl. split; [|by split].
      intros e He. apply elem_of_cons in He. destruct He as [->|He].
      * simpl. lia.
      * specialize (Hmin e He). lia.
    + simpl. split; [|by apply IH].
      intros e He. destruct (insert_elem _ _ _ _ He) as [->|Hin].
      * simpl. lia.
      * by apply Hmin.
Qed.

Lemma insert_length k v q :
  length (PriorityQueue.insert k v q) = S (length q).
Proof.
  induction q as [|[k' w] rest IH]; simpl; [done|].
  destruct (k <? k')%Z; simpl; by rewrite ?IH.
Qed.

(** What [dequeue] returns has the smallest key of the queue. *)
Lemma dequeue_least q k v rest :
  PriorityQueue.sorted q -> q = (k, v) :: rest ->
  PriorityQueue.dequeue q = (Some v, rest) /\ forall e, e ∈ q -> k <= fst e.
Proof.
  intros Hs ->. split; [done|].
  destruct Hs as [Hmin _]. intros e He.
  apply elem_of_cons in He. destruct He as [->|He]; [simpl; lia | by apply Hmin].
Qed.
End PriorityQueueFacts.

(** ** The event queue: [dequeue] *)

Section DequeueFacts.
Import EventQueue.
Context {W : Type}.
Variable mapper : option QueuedEvent -> W -> W.
Variable BATCH_SIZE : Z.

Lemma handed_take_replicate n q :
  handed n q = map (fun e => Some (snd e)) (take n q)
               ++ replicate (n - length q) None.
Proof.
  revert q. induction n as [|n IH]; intros q; [done|].
  destruct q as [|[k v] rest]; simpl.
  - rewrite IH. simpl. by rewrite take_nil, Nat.sub_0_r.
  - by rewrite IH.
Qed.

Lemma dequeue_loop_enough n : forall c q w,
  Z.to_nat c = n ->
  dequeue_loop mapper n c q w =
    Some ({| queue := drop n (queue q); logged := logged q |},
          fold_left (fun w ev => mapper ev w) (handed n (queue q)) w).
Proof.
  induction n as [|n IH]; intros c q w Hc; simpl.
  - destruct (0 <? c)%Z eqn:E; [lia|]. rewrite drop_0. by destruct q.
  - destruct (0 <? c)%Z eqn:E; [|lia].
    destruct (queue q) as [|[k v] rest] eqn:Hq; simpl.
    + rewrite IH by lia. simpl. by rewrite drop_nil.
    + rewrite IH by lia. done.
Qed.

(** The loop ends: [dequeue] returns for every amount and every queue. *)
Lemma dequeue_returns opt_amt q w :
  let n := Z.to_nat (match opt_amt with None => BATCH_SIZE | Some a => a end) in
  dequeue mapper BATCH_SIZE opt_amt q w =
    Some ({| queue := drop n (queue q); logged := logged q |},
          fold_left (fun w ev => mapper ev w) (handed n (queue q)) w).
Proof. intros n. unfold dequeue. by apply dequeue_loop_enough. Qed.
End DequeueFacts.

Lemma fold_recording calls evs :
  fold_left (fun w ev => EventQueue.recording ev w) evs calls = calls ++ evs.
Proof.
  revert calls. induction evs as [|ev evs IH]; intros calls; simpl.
  - by rewrite app_nil_r.
  - rewrite IH. unfold EventQueue.recording. by rewrite <- app_assoc.
Qed.

(** With a queue that holds at least [amount] items, [amount] items leave in
    the order of the queue, each is handed to the mapper once, and the mapper
    is called for nothing else. *)
Lemma dequeue_enough_items (BATCH_SIZE amount : Z) (q : EventQueue.t) calls :
  (Z.to_nat amount <= length (EventQueue.queue q))%nat ->
  EventQueue.dequeue EventQueue.recording BATCH_SIZE (Some amount) q calls =
    Some ({| EventQueue.queue := drop (Z.to_nat amount) (EventQueue.queue q);
             EventQueue.logged := EventQueue.logged q |},
          calls ++ map (fun e => Some (snd e))
                       (take (Z.to_nat amount) (EventQueue.queue q))).
Proof.
  intros Hlen. rewrite dequeue_returns. simpl.
  rewrite fold_recording, handed_take_replicate.
  replace (Z.to_nat amount - length (EventQueue.queue q))%nat with 0%nat by lia.
  simpl. by rewrite app_nil_r.
Qed.

(** With a queue that holds fewer than [amount] items, the loop goes on after
    the queue is empty: the mapper is called [amount] times in all, the calls
    beyond the items of the queue being made with [undefined]. *)
Lemma dequeue_short_queue (BATCH_SIZE amount : Z) (q : EventQueue.t) calls :
  (length (EventQueue.queue q) < Z.to_nat amount)%nat ->
  EventQueue.dequeue EventQueue.recording BATCH_SIZE (Some amount) q calls =
    Some ({| EventQueue.queue := []; EventQueue.logged := EventQueue.logged q |},
          calls ++ map (fun e => Some (snd e)) (EventQueue.queue q)
                ++ replicate (Z.to_nat amount - length (EventQueue.queue q)) None).
Proof.
  intros Hlen. rewrite dequeue_returns. simpl.
  rewrite fold_recording, handed_take_replicate.
  rewrite take_ge by lia. by rewrite drop_ge by lia.
Qed.

(** C1.  [dequeue(mapper, 3)] on an empty queue returns with the queue still
    empty, but it has called the mapper three times, each time with
    [undefined]: the loop counts [amount] iterations whatever the queue
    holds, where the claim has it stop once the queue has run out, with no
    call of the mapper at all on an empty queue. *)
Theorem dequeue_empty_queue_calls_mapper :
  EventQueue.dequeue EventQueue.recording 10 (Some 3) EventQueue.new [] =
    Some (EventQueue.new, [None; None; None]).
Proof. reflexivity. Qed.

(** ** The base event *)

Section EventFacts.
Import Event.
Variable rpcMethod : BaseEvent -> Routine.
Variable renderPayload : BaseEvent -> option (gmap string string).
Variable proto_merge : loc -> loc -> HeapOp loc.
Variable telemetry_enqueue : TelemetryRPC -> Dispatch -> Dispatch.

Ltac eff_unfold :=
  unfold generateRPC, renderContext, validateContext, context_export,
    globalContext_export, renderUUID, renderOccurrence, telemetry_abort,
    log, lift_heap, read, alloc, bind, gets, modify, ret, throw in *.

Lemma with_heap_same (m : Machine) : with_heap (heap m) m = m.
Proof. by destruct m. Qed.

(** *** What each method leaves alone *)

Lemma lift_read get c m :
  lift_heap (read get c) m =
    (match heap m !! c with
     | Some p => Return (get p)
     | None => Throw TypeError
     end, m).
Proof.
  unfold lift_heap, read.
  destruct (heap m !! c); by rewrite with_heap_same.
Qed.

(** Validation by cases on the message it is given. *)
Lemma validateContext_cases c m :
  validateContext c m =
    (match heap m !! c with
     | None => Throw TypeError
     | Some p =>
         if negb (Js.truthy_string (getFingerprint p))
         then Throw (ContextException "Missing device fingerprint ID.")
         else if negb (Js.truthy_string (getGroup p))
         then Throw (ContextException "Missing device session ID.")
         else Return tt
     end, m).
Proof.
  unfold validateContext, bind. rewrite lift_read.
  destruct (heap m !! c) as [p|] eqn:Hc; [|done].
  destruct (Js.truthy_string (getFingerprint p)); simpl; [|done].
  rewrite lift_read, Hc.
  by destruct (Js.truthy_string (getGroup p)).
Qed.

Lemma validateContext_state c m : snd (validateContext c m) = m.
Proof. by rewrite validateContext_cases. Qed.

(** [renderContext] by cases on what the merge gives. *)
Lemma renderContext_cases g m :
  renderContext proto_merge g m =
    let local := fresh (dom (heap m)) in
    match proto_merge local g (<[local := context (this m)]> (heap m)) with
    | (Return merged, h2) =>
        match fst (validateContext merged (with_heap h2 m)) with
        | Return _ => (Return merged, with_heap h2 m)
        | Throw e => (Throw e, with_heap h2 m)
        end
    | (Throw e, h2) => (Throw e, with_heap h2 m)
    end.
Proof.
  unfold renderContext, context_export, bind, gets, lift_heap, alloc, ret. simpl.
  destruct (proto_merge _ g _) as [[merged|e] h2]; simpl; [|done].
  change (with_heap h2 (with_heap _ m)) with (with_heap h2 m).
  pose proof (validateContext_state merged (with_heap h2 m)) as Hv.
  destruct (validateContext merged (with_heap h2 m)) as [[[]|e] m3];
    simpl in *; by subst m3.
Qed.

(** [generateRPC] by cases on what [renderContext] gives. *)
Lemma generateRPC_cases m :
  generateRPC rpcMethod renderPayload proto_merge m =
    let global := fresh (dom (heap m)) in
    match renderContext proto_merge global
            (with_heap (<[global := ambient m]> (heap m)) m) with
    | (Return merged, m1) =>
        (Return {| rpc_uuid := uuid (this m1);
                   rpc_method := rpcMethod (this m1);
                   rpc_onSuccess := BaseEvent_onSuccess;
                   rpc_onFailure := BaseEvent_onFailure;
                   rpc_payload := match renderPayload (this m1) with
                                  | None => ∅
                                  | Some p => p
                                  end;
                   rpc_context := merged |},
         with_logs (logs m1 ++ ["Preparing RPC."]) m1)
    | (Throw e, m1) => (Throw e, m1)
    end.
Proof.
  unfold generateRPC, globalContext_export, bind, gets, lift_heap, alloc,
    renderUUID, log, modify, ret. simpl.
  by destruct (renderContext proto_merge _ _) as [[merged|e] m1].
Qed.

(** *** What each method leaves alone *)

Lemma renderContext_frame g m :
  let m' := snd (renderContext proto_merge g m) in
  this m' = this m /\ ambient m' = ambient m /\
  dispatchState m' = dispatchState m /\ invoked m' = invoked m /\
  aborted m' = aborted m /\ logs m' = logs m.
Proof.
  rewrite renderContext_cases. simpl.
  destruct (proto_merge _ g _) as [[merged|e] h2]; [|done].
  by destruct (fst (validateContext merged _)).
Qed.

Lemma generateRPC_frame m :
  let m' := snd (generateRPC rpcMethod renderPayload proto_merge m) in
  this m' = this m /\ ambient m' = ambient m /\
  dispatchState m' = dispatchState m /\ invoked m' = invoked m /\
  aborted m' = aborted m.
Proof.
  rewrite generateRPC_cases. simpl.
  pose proof (renderContext_frame (fresh (dom (heap m)))
    (with_heap (<[fresh (dom (heap m)) := ambient m]> (heap m)) m)) as Hr.
  simpl in Hr.
  destruct (renderContext proto_merge _ _) as [[merged|e] m1]; simpl in *;
    intuition congruence.
Qed.
(** *** Validation *)

Lemma truthy_string_false s : Js.truthy_string s = false <-> s = EmptyString.
Proof. destruct s; simpl; split; congruence. Qed.

Lemma truthy_string_true s : Js.truthy_string s = true <-> s <> EmptyString.
Proof. destruct s; simpl; split; congruence. Qed.

(** [validateContext] raises a ContextException exactly for a message whose
    fingerprint or group is empty, and changes nothing. *)
Lemma validateContext_raises_iff_missing c m p :
  heap m !! c = Some p ->
  (is_context_exception (fst (validateContext c m)) = true <->
     getFingerprint p = EmptyString \/ getGroup p = EmptyString)
  /\ (getFingerprint p <> EmptyString -> getGroup p <> EmptyString ->
      validateContext c m = (Return tt, m)).
Proof.
  intros Hc. rewrite validateContext_cases, Hc. simpl.
  destruct (Js.truthy_string (getFingerprint p)) eqn:Hf;
    destruct (Js.truthy_string (getGroup p)) eqn:Hg; simpl;
    rewrite ?truthy_string_false, ?truthy_string_true in *;
    (split; [split|]); try done; try tauto; intros; exfalso; intuition congruence.
Qed.

(** C3.  Let the merge of the event's exported context with the global one
    give the message [merged], with fields [p].  Then [renderContext] raises
    a ContextException if and only if the fingerprint or the group of [p]
    is empty; with both present it raises nothing and returns [merged]; and
    [generateRPC], which renders the context of the exported ambient
    context, raises a ContextException in the same cases. *)
Theorem renderContext_raises_iff_missing g m local m1 merged m2 p :
  context_export m = (Return local, m1) ->
  lift_heap (proto_merge local g) m1 = (Return merged, m2) ->
  heap m2 !! merged = Some p ->
  (is_context_exception (fst (renderContext proto_merge g m)) = true <->
     getFingerprint p = EmptyString \/ getGroup p = EmptyString)
  /\ (getFingerprint p <> EmptyString -> getGroup p <> EmptyString ->
      renderContext proto_merge g m = (Return merged, m2))
  /\ (forall m0, globalContext_export m0 = (Return g, m) ->
      is_context_exception
        (fst (generateRPC rpcMethod renderPayload proto_merge m0)) = true <->
      getFingerprint p = EmptyString \/ getGroup p = EmptyString).
Proof.
  intros Hexp Hmerge Hp.
  unfold context_export, bind, gets, lift_heap, alloc in Hexp.
  simpl in Hexp. injection Hexp as <- <-.
  unfold lift_heap in Hmerge. simpl in Hmerge.
  destruct (proto_merge _ g _) as [r h2] eqn:Hpm.
  injection Hmerge as -> <-.
  change (with_heap h2 (with_heap _ m)) with (with_heap h2 m) in *.
  destruct (validateContext_raises_iff_missing merged (with_heap h2 m) p Hp)
    as [Hiff Hok].
  assert (Hrc : renderContext proto_merge g m =
    match fst (validateContext merged (with_heap h2 m)) with
    | Return _ => (Return merged, with_heap h2 m)
    | Throw e => (Throw e, with_heap h2 m)
    end).
  { rewrite renderContext_cases. simpl. by rewrite Hpm. }
  assert (Hsame : is_context_exception (fst (renderContext proto_merge g m))
                  = is_context_exception (fst (validateContext merged (with_heap h2 m)))).
  { rewrite Hrc. by destruct (fst (validateContext merged _)). }
  split; [by rewrite Hsame|]. split.
  - intros Hf Hg. rewrite Hrc, (Hok Hf Hg). done.
  - intros m0 Hg0.
    unfold globalContext_export, bind, gets, lift_heap, alloc in Hg0.
    simpl in Hg0. injection Hg0 as Hg Hm.
    rewrite generateRPC_cases. cbv zeta. rewrite Hm, Hg.
    rewrite <- Hiff, <- Hsame.
    by destruct (renderContext proto_merge g m) as [[x|e] m'].
Qed.

(** *** Dispatch *)

(** The callback slots play no part in rendering the context. *)
Lemma renderContext_with_this f g m :
  context (f (this m)) = context (this m) ->
  renderContext proto_merge g (with_this f m) =
    (fst (renderContext proto_merge g m),
     with_this f (snd (renderContext proto_merge g m))).
Proof.
  intros Hctx. rewrite !renderContext_cases. simpl. rewrite Hctx.
  destruct (proto_merge _ g _) as [[merged|e] h2]; [|done].
  rewrite !validateContext_cases. simpl.
  destruct (h2 !! merged) as [p|]; [|done].
  destruct (Js.truthy_string (getFingerprint p)); [|done].
  by destruct (Js.truthy_string (getGroup p)).
Qed.

Lemma generateRPC_throws_with_this f m e :
  context (f (this m)) = context (this m) ->
  fst (generateRPC rpcMethod renderPayload proto_merge m) = Throw e ->
  generateRPC rpcMethod renderPayload proto_merge (with_this f m) =
    (Throw e, with_this f (snd (generateRPC rpcMethod renderPayload proto_merge m))).
Proof.
  intros Hctx. rewrite !generateRPC_cases. simpl.
  change (with_heap ?h (with_this f m)) with (with_this f (with_heap h m)).
  rewrite renderContext_with_this by done.
  destruct (renderContext proto_merge _ _) as [[merged|e'] m1]; simpl; [done|].
  by intros [= ->].
Qed.

(** [dispatch] is the registration of the callbacks, then [generateRPC],
    then [enqueue] if that returned. *)
Lemma dispatch_cases success failure m :
  dispatch rpcMethod renderPayload proto_merge telemetry_enqueue success failure m =
    match generateRPC rpcMethod renderPayload proto_merge
            (with_this (register success failure) m) with
    | (Return rpc, m1) =>
        (Return tt, with_dispatchState (telemetry_enqueue rpc (dispatchState m1)) m1)
    | (Throw e, m1) => (Throw e, m1)
    end.
Proof.
  unfold dispatch, bind, modify. simpl.
  change (with_this _ (with_this _ m)) with (with_this (register success failure) m).
  by destruct (generateRPC _ _ _ _) as [[rpc|e] m1].
Qed.

(** C4.  When the generation of the RPC fails, [dispatch] ends in the same
    exception, and the dispatch state, the queue in it, is what it was
    before the call: nothing has been enqueued. *)
Theorem dispatch_fails_before_enqueue success failure m e :
  fst (generateRPC rpcMethod renderPayload proto_merge m) = Throw e ->
  fst (dispatch rpcMethod renderPayload proto_merge telemetry_enqueue
         success failure m) = Throw e
  /\ dispatchState (snd (dispatch rpcMethod renderPayload proto_merge
                          telemetry_enqueue success failure m))
     = dispatchState m.
Proof.
  intros Hgen. rewrite dispatch_cases.
  rewrite (generateRPC_throws_with_this (register success failure) m e);
    [|done|done].
  simpl. split; [done|].
  by destruct (generateRPC_frame m) as (_ & _ & Hd & _).
Qed.

(** When it succeeds, the request does reach [enqueue]. *)
Lemma dispatch_enqueues success failure m rpc m1 :
  generateRPC rpcMethod renderPayload proto_merge
    (with_this (register success failure) m) = (Return rpc, m1) ->
  dispatch rpcMethod renderPayload proto_merge telemetry_enqueue success failure m
    = (Return tt, with_dispatchState (telemetry_enqueue rpc (dispatchState m)) m1).
Proof.
  intros Hgen. rewrite dispatch_cases, Hgen.
  pose proof (generateRPC_frame (with_this (register success failure) m)) as Hf.
  rewrite Hgen in Hf. simpl in Hf. destruct Hf as (_ & _ & -> & _). done.
Qed.
Lemma dispatch_frame success failure m :
  let m' := snd (dispatch rpcMethod renderPayload proto_merge telemetry_enqueue
                   success failure m) in
  this m' = register success failure (this m) /\ invoked m' = invoked m /\
  ambient m' = ambient m /\ aborted m' = aborted m.
Proof.
  rewrite dispatch_cases.
  pose proof (generateRPC_frame (with_this (register success failure) m)) as Hf.
  destruct (generateRPC _ _ _ _) as [[rpc|e] m1]; simpl in *; tauto.
Qed.

(** *** The trampolines *)

Lemma onSuccess_cases status m :
  onSuccess status m =
    match successCallback (this m) with
    | Js.Function name true =>
        (Throw (CallbackError name),
         with_invoked (invoked m ++ [SuccessCalled name status]) m)
    | Js.Function name false =>
        (Return tt,
         with_this (set_successCallback Js.Null)
           (with_invoked (invoked m ++ [SuccessCalled name status]) m))
    | _ => (Return tt, with_this (set_successCallback Js.Null) m)
    end.
Proof.
  unfold onSuccess, call_success, bind, gets, modify, ret, throw. simpl.
  by destruct (successCallback (this m)) as [|name [|]|[|]].
Qed.

Lemma onFailure_cases op error code m :
  onFailure op error code m =
    match failureCallback (this m) with
    | Js.Function name true =>
        (Throw (CallbackError name),
         with_invoked (invoked m ++ [FailureCalled name op error code]) m)
    | Js.Function name false =>
        (Return tt,
         with_this (set_failureCallback Js.Null)
           (with_invoked (invoked m ++ [FailureCalled name op error code]) m))
    | _ => (Return tt, with_this (set_failureCallback Js.Null) m)
    end.
Proof.
  unfold onFailure, call_failure, bind, gets, modify, ret, throw. simpl.
  by destruct (failureCallback (this m)) as [|name [|]|[|]].
Qed.

Lemma success_calls_Null ts : success_calls Js.Null ts = [].
Proof. done. Qed.

Lemma failure_calls_Null ts : failure_calls Js.Null ts = [].
Proof. done. Qed.






(** From any state, whatever calls of the trampolines follow: a success
    callback that returns when called is called by the first [onSuccess]
    only, and a failure callback that returns when called by the first
    [onFailure] only, each whatever the other one does. *)
Lemma trampolines_from ts : forall m,
  forallb is_trampoline ts = true ->
  exists new,
    invoked (perform_all rpcMethod renderPayload proto_merge telemetry_enqueue ts m)
      = invoked m ++ new
    /\ (Js.throws (successCallback (this m)) = false ->
        List.filter is_success new = success_calls (successCallback (this m)) ts)
    /\ (Js.throws (failureCallback (this m)) = false ->
        List.filter is_failure new = failure_calls (failureCallback (this m)) ts).
Proof.
  induction ts as [|c ts IH]; intros m Htr.
  - exists []. simpl. rewrite app_nil_r. repeat split.
    + intros _. unfold success_calls. by destruct (successCallback (this m)).
    + intros _. unfold failure_calls. by destruct (failureCallback (this m)).
  - simpl in Htr. apply andb_true_iff in Htr as [Hc Hts].
    destruct c; try discriminate; simpl.
    + rewrite onSuccess_cases.
      destruct (successCallback (this m)) as [|name [|]|b] eqn:Hcb; simpl.
      * destruct (IH (with_this (set_successCallback Js.Null) m) Hts)
          as (new & Hinv & Hns & Hnf).
        exists new. rewrite Hinv. simpl in *. split; [done|]. split; [|done].
        intros _. by rewrite Hns.
      * destruct (IH (with_invoked (invoked m ++ [SuccessCalled name status]) m) Hts)
          as (new & Hinv & Hns & Hnf).
        exists (SuccessCalled name status :: new). rewrite Hinv. simpl in *.
        rewrite <- app_assoc. split; [done|]. split; [discriminate|done].
      * destruct (IH (with_this (set_successCallback Js.Null)
                  (with_invoked (invoked m ++ [SuccessCalled name status]) m)) Hts)
          as (new & Hinv & Hns & Hnf).
        exists (SuccessCalled name status :: new). rewrite Hinv. simpl in *.
        rewrite <- app_assoc. split; [done|]. split; [|done].
        intros _. by rewrite Hns.
      * destruct (IH (with_this (set_successCallback Js.Null) m) Hts)
          as (new & Hinv & Hns & Hnf).
        exists new. rewrite Hinv. simpl in *. split; [done|]. split; [|done].
        intros _. by rewrite Hns.
    + rewrite onFailure_cases.
      destruct (failureCallback (this m)) as [|name [|]|b] eqn:Hcb; simpl.
      * destruct (IH (with_this (set_failureCallback Js.Null) m) Hts)
          as (new & Hinv & Hns & Hnf).
        exists new. rewrite Hinv. simpl in *. split; [done|]. split; [done|].
        intros _. by rewrite Hnf.
      * destruct (IH (with_invoked
                  (invoked m ++ [FailureCalled name op error code]) m) Hts)
          as (new & Hinv & Hns & Hnf).
        exists (FailureCalled name op error code :: new). rewrite Hinv. simpl in *.
        rewrite <- app_assoc. split; [done|]. split; [done|discriminate].
      * destruct (IH (with_this (set_failureCallback Js.Null)
                  (with_invoked (invoked m ++ [FailureCalled name op error code]) m)) Hts)
          as (new & Hinv & Hns & Hnf).
        exists (FailureCalled name op error code :: new). rewrite Hinv. simpl in *.
        rewrite <- app_assoc. split; [done|]. split; [done|].
        intros _. by rewrite Hnf.
      * destruct (IH (with_this (set_failureCallback Js.Null) m) Hts)
          as (new & Hinv & Hns & Hnf).
        exists new. rewrite Hinv. simpl in *. split; [done|]. split; [done|].
        intros _. by rewrite Hnf.
Qed.


(** The callback is called before its slot is cleared: one that, while it
    runs, calls [onSuccess] on the event again is invoked by that call too,
    though both calls return. *)
Remark reentering_callback_invoked_twice name status inner m :
  successCallback (this m) = Js.Function name false ->
  onSuccess_reentered status inner m
    = (Return tt,
       with_this (set_successCallback Js.Null)
         (with_invoked (invoked m ++ [SuccessCalled name status;
                                      SuccessCalled name inner]) m)).
Proof.
  intros Hcb.
  unfold onSuccess_reentered, call_success, bind, gets, modify, ret. rewrite Hcb.
  simpl. rewrite onSuccess_cases. simpl. rewrite Hcb. simpl.
  by rewrite <- app_assoc.
Qed.

(** A trampoline called with a receiver other than the event, as a call
    through the request is, does not reach the callbacks of the event: with a
    receiver that has no callback of its own, nothing is invoked and the
    event keeps its slots. *)
Remark trampoline_on_other_receiver_misses_event status op error code m :
  onSuccess_on_other (Js.Other false) status m = (Return Js.Null, m)
  /\ onFailure_on_other (Js.Other false) op error code m = (Return Js.Null, m).
Proof. done. Qed.

(** *** The identifier *)

(** No method writes the identifier. *)
Lemma perform_keeps_uuid c m :
  uuid (this (perform rpcMethod renderPayload proto_merge telemetry_enqueue c m))
    = uuid (this m).
Proof.
  destruct c; simpl.
  - destruct (dispatch_frame success failure m) as (-> & _). done.
  - unfold send. destruct (dispatch_frame Js.Null Js.Null m) as (-> & _). done.
  - done.
  - rewrite onSuccess_cases.
    by destruct (successCallback (this m)) as [|name [|]|b].
  - rewrite onFailure_cases.
    by destruct (failureCallback (this m)) as [|name [|]|b].
  - done.
  - done.
  - destruct (renderContext_frame global m) as (-> & _). done.
  - destruct (generateRPC_frame m) as (-> & _). done.
Qed.

Lemma perform_all_keeps_uuid cs : forall m,
  uuid (this (perform_all rpcMethod renderPayload proto_merge telemetry_enqueue cs m))
    = uuid (this m).
Proof.
  induction cs as [|c cs IH]; intros m; [done|].
  unfold perform_all in *. cbn [fold_left]. by rewrite IH, perform_keeps_uuid.
Qed.

(** The request that [generateRPC] builds carries the identifier. *)
Lemma generateRPC_uuid m rpc m1 :
  generateRPC rpcMethod renderPayload proto_merge m = (Return rpc, m1) ->
  rpc_uuid rpc = uuid (this m).
Proof.
  rewrite generateRPC_cases. cbv zeta.
  pose proof (renderContext_frame (fresh (dom (heap m)))
    (with_heap (<[fresh (dom (heap m)) := ambient m]> (heap m)) m)) as Hr.
  destruct (renderContext proto_merge _ _) as [[merged|e] m']; [|done].
  intros [= <- _]. simpl in *. by destruct Hr as (-> & _).
Qed.

(** C7, as the code has it.  [renderUUID] returns the identifier of the
    event, the same after any calls of the methods, whether they return or
    throw; a request that [generateRPC] builds carries it; a queued event
    prepared from a request is keyed by the [opt_uuid] handed to
    [prepareQueuedEvent], so by the identifier of the event when that of the
    request is handed over; and when [opt_uuid] is omitted the key is a newly
    generated identifier, whatever the request. *)
Theorem renderUUID_stable_and_keys_request cs m gen :
  fst (renderUUID
         (perform_all rpcMethod renderPayload proto_merge telemetry_enqueue cs m))
    = Return (uuid (this m))
  /\ fst (renderUUID m) = Return (uuid (this m))
  /\ (forall rpc m1,
        generateRPC rpcMethod renderPayload proto_merge m = (Return rpc, m1) ->
        rpc_uuid rpc = uuid (this m)
        /\ EventQueue.uuid
             (fst (EventQueue.prepareQueuedEvent rpc (Some (rpc_uuid rpc)) gen))
           = uuid (this m))
  /\ (forall rpc id,
        EventQueue.prepareQueuedEvent rpc (Some id) gen
          = ({| EventQueue.uuid := id; EventQueue.rpc := rpc |}, gen))
  /\ (forall rpc,
        EventQueue.prepareQueuedEvent rpc None gen
          = ({| EventQueue.uuid := fst (generateUUID gen); EventQueue.rpc := rpc |},
             snd (generateUUID gen))).
Proof.
  unfold renderUUID, gets. simpl. rewrite perform_all_keeps_uuid.
  split; [done|]. split; [done|]. split; [|by split].
  intros rpc m1 Hgen. by rewrite (generateRPC_uuid m rpc m1 Hgen).
Qed.

(** *** The ambient context *)

(** C6.  Let the merge leave the message it is given as the global one as
    it is.  Then so does [renderContext]: the global message has the same
    fields after the call as before.  And [generateRPC] leaves the ambient
    context as it is, as well as the message exported from it, which it
    hands to [renderContext]. *)
Theorem renderContext_keeps_ambient g m pg :
  keeps_global proto_merge ->
  heap m !! g = Some pg ->
  heap (snd (renderContext proto_merge g m)) !! g = Some pg
  /\ ambient (snd (renderContext proto_merge g m)) = ambient m
  /\ ambient (snd (generateRPC rpcMethod renderPayload proto_merge m)) = ambient m
  /\ heap (snd (generateRPC rpcMethod renderPayload proto_merge m))
       !! fresh (dom (heap m)) = Some (ambient m).
Proof.
  intros Hkeep Hg.
  assert (Hrc : forall g' m' p, heap m' !! g' = Some p ->
            heap (snd (renderContext proto_merge g' m')) !! g' = Some p).
  { intros g' m' p Hg'. rewrite renderContext_cases. cbv zeta.
    assert (Hfresh : fresh (dom (heap m')) <> g').
    { intros <-. apply (is_fresh (dom (heap m'))). apply elem_of_dom. eauto. }
    pose proof (Hkeep (fresh (dom (heap m'))) g'
      (<[fresh (dom (heap m')) := context (this m')]> (heap m')) p) as Hk.
    rewrite lookup_insert_ne in Hk by done. specialize (Hk Hg').
    destruct (proto_merge _ g' _) as [[merged|e] h2]; simpl in *; [|done].
    by destruct (fst (validateContext merged _)). }
  split; [by apply Hrc|]. split.
  { by destruct (renderContext_frame g m) as (_ & -> & _). }
  split.
  { by destruct (generateRPC_frame m) as (_ & -> & _). }
  rewrite generateRPC_cases. cbv zeta.
  pose proof (Hrc (fresh (dom (heap m)))
    (with_heap (<[fresh (dom (heap m)) := ambient m]> (heap m)) m) (ambient m)) as H.
  simpl in H. rewrite lookup_insert_eq in H. specialize (H eq_refl).
  by destruct (renderContext proto_merge _ _) as [[merged|e] m1].
Qed.
End EventFacts.

(** ** The merge of the specification *)

Section MergeFacts.
Import Event.

Lemma spec_merge_returns local global h pl pg :
  h !! local = Some pl -> h !! global = Some pg ->
  spec_merge local global h =
    (Return (fresh (dom h)), <[fresh (dom h) := pl ∪ pg]> h).
Proof. intros Hl Hg. unfold spec_merge, alloc. by rewrite Hl, Hg. Qed.

Lemma spec_merge_keeps_global : keeps_global spec_merge.
Proof.
  intros local global h p Hg. unfold spec_merge, alloc.
  destruct (h !! local) as [pl|]; [|done].
  rewrite Hg. simpl. rewrite lookup_insert_ne; [done|].
  intros Heq. apply (is_fresh (dom h)). rewrite Heq. apply elem_of_dom. eauto.
Qed.

(** With this merge, [renderContext] returns a message that holds the
    union of the two contexts, the local one first, or raises what
    validation raises on it. *)
Lemma renderContext_spec_merge g m pg :
  heap m !! g = Some pg ->
  exists merged m',
    heap m' !! merged = Some (context (this m) ∪ pg)
    /\ snd (renderContext spec_merge g m) = m'
    /\ (fst (renderContext spec_merge g m) = Return merged
        \/ is_context_exception (fst (renderContext spec_merge g m)) = true).
Proof.
  intros Hg. rewrite renderContext_cases. cbv zeta.
  set (local := fresh (dom (heap m))).
  set (h1 := <[local := context (this m)]> (heap m)).
  assert (Hne : local <> g).
  { intros Heq. apply (is_fresh (dom (heap m))). fold local. rewrite Heq.
    apply elem_of_dom. eauto. }
  rewrite (spec_merge_returns local g h1 (context (this m)) pg).
  - set (merged := fresh (dom h1)).
    set (m' := with_heap (<[merged := context (this m) ∪ pg]> h1) m).
    assert (Hm : heap m' !! merged = Some (context (this m) ∪ pg))
      by apply lookup_insert_eq.
    exists merged, m'. split; [done|].
    rewrite validateContext_cases, Hm. simpl.
    destruct (Js.truthy_string (getFingerprint _)); simpl; [|by auto].
    destruct (Js.truthy_string (getGroup _)); simpl; by auto.
  - apply lookup_insert_eq.
  - unfold h1. by rewrite lookup_insert_ne.
Qed.

(** C5.  With the merge of the specification, the context that
    [renderContext] returns holds, field by field: the local value of every
    field that the event's own context has, whatever the ambient context
    has for it, and the ambient value of every other field. *)
Theorem renderContext_merges_local_onto_ambient g m pg merged m' :
  heap m !! g = Some pg ->
  renderContext spec_merge g m = (Return merged, m') ->
  exists p,
    heap m' !! merged = Some p
    /\ (forall field v, context (this m) !! field = Some v -> p !! field = Some v)
    /\ (forall field, context (this m) !! field = None -> p !! field = pg !! field).
Proof.
  intros Hg Hr.
  destruct (renderContext_spec_merge g m pg Hg) as (merged' & m'' & Hm & Hs & Hres).
  rewrite Hr in Hs, Hres. simpl in *. subst m''.
  destruct Hres as [[= <-]|Hex]; [|done].
  exists (context (this m) ∪ pg). split; [done|]. split.
  - intros field v Hl. by apply lookup_union_Some_l.
  - intros field Hl. by apply lookup_union_r.
Qed.
End MergeFacts.

(** ** Construction *)

Section ConstructionFacts.
Import Event.

(** The falsy numbers are those equal to zero and NaN. *)
Lemma truthy_number_false n :
  Js.truthy_number n = false <-> (n =? 0)%float = true \/ PrimFloat.is_nan n = true.
Proof.
  unfold Js.truthy_number, PrimFloat.is_nan.
  destruct (n =? 0)%float, (n =? n)%float; simpl; intuition congruence.
Qed.

Lemma new_occurred ctx method pl opt_occurred opt_uuid env :
  occurred (fst (new ctx method pl opt_occurred opt_uuid env))
    = Js.or_else_number opt_occurred (clock env).
Proof.
  unfold new.
  destruct opt_uuid as [u|]; [destruct (Js.truthy_string u)|]; try done;
    by destruct (generateUUID (uuids env)).
Qed.

Lemma new_uuid ctx method pl opt_occurred opt_uuid env :
  uuid (fst (new ctx method pl opt_occurred opt_uuid env))
    = match opt_uuid with
      | Some u => if Js.truthy_string u then u else fst (generateUUID (uuids env))
      | None => fst (generateUUID (uuids env))
      end.
Proof.
  unfold new.
  destruct opt_uuid as [u|]; [destruct (Js.truthy_string u)|]; try done;
    by destruct (generateUUID (uuids env)).
Qed.

(** C8, as the code has it.  For an event constructed with an explicit
    timestamp [T] that is neither zero nor NaN, [renderOccurrence] returns
    [T] whatever its argument.  For an event constructed without a timestamp,
    or with a timestamp that is zero or NaN, which the constructor takes for
    none, it returns the reading of the clock at construction, provided that
    is neither zero nor NaN.  The argument is returned only when the stored
    timestamp is zero or NaN. *)
Theorem renderOccurrence_returns_stored ctx method pl opt_occurred opt_uuid env m now :
  this m = fst (new ctx method pl opt_occurred opt_uuid env) ->
  (forall T, opt_occurred = Some T -> Js.truthy_number T = true ->
     fst (renderOccurrence now m) = Return T)
  /\ (opt_occurred = None
      \/ (exists T, opt_occurred = Some T
                    /\ ((T =? 0)%float = true \/ PrimFloat.is_nan T = true)) ->
      Js.truthy_number (clock env) = true ->
      fst (renderOccurrence now m) = Return (clock env))
  /\ (Js.truthy_number (occurred (this m)) = true ->
      fst (renderOccurrence now m) = Return (occurred (this m)))
  /\ (Js.truthy_number (occurred (this m)) = false ->
      fst (renderOccurrence now m) = Return now)
  /\ Js.truthy_number 0 = false /\ Js.truthy_number (-0) = false
  /\ Js.truthy_number nan = false.
Proof.
  intros Hthis. unfold renderOccurrence, gets. simpl.
  rewrite Hthis, new_occurred.
  repeat split.
  - intros T -> HT. simpl. by rewrite !HT.
  - intros Hopt Hclock.
    destruct Hopt as [-> | (T & -> & HT)]; simpl; [by rewrite Hclock|].
    apply truthy_number_false in HT. by rewrite HT, Hclock.
  - intros Hocc. by rewrite Hocc.
  - intros Hocc. by rewrite Hocc.
Qed.

(** C10.  Let the generator give an identifier that is not empty.  An event
    constructed with the empty string as its identifier gets the generated
    one, and [renderUUID] returns that, not the empty string; an identifier
    that is not empty is kept, and the generator is not asked. *)
Theorem empty_uuid_is_replaced ctx method pl opt_occurred env m :
  fst (generateUUID (uuids env)) <> EmptyString ->
  this m = fst (new ctx method pl opt_occurred (Some EmptyString) env) ->
  fst (renderUUID m) = Return (fst (generateUUID (uuids env)))
  /\ fst (renderUUID m) <> Return EmptyString
  /\ (forall u, u <> EmptyString ->
      new ctx method pl opt_occurred (Some u) env
        = ({| uuid := u; operation := method; context := ctx; payload := pl;
              occurred := Js.or_else_number opt_occurred (clock env);
              successCallback := Js.Null; failureCallback := Js.Null |}, env)).
Proof.
  intros Hgen Hthis. unfold renderUUID, gets. simpl.
  rewrite Hthis, new_uuid. simpl. repeat split.
  - intros [= Heq]. by apply Hgen.
  - intros u Hu. apply truthy_string_true in Hu.
    unfold new. rewrite Hu. by destruct env.
Qed.
End ConstructionFacts.

(** ** Setup *)

(** C9.  [setup] with a partner and a location that are both non-empty sets
    the telemetry endpoint, to the override if one is given (and is not the
    empty string), to the default otherwise, and then calls the callback,
    once; with an empty partner or location it does neither, and logs an
    error. *)
Theorem setup_validates_then_configures (TELEMETRY_API_ENDPOINT : string)
    partner location apikey endpoint s :
  let s' := Setup.setup TELEMETRY_API_ENDPOINT partner location apikey endpoint s in
  (partner <> EmptyString -> location <> EmptyString ->
     Setup.endpoints_telemetry s'
       = match endpoint with
         | Some (String a e) => String a e
         | _ => TELEMETRY_API_ENDPOINT
         end
     /\ Setup.callback_calls s'
        = Setup.callback_calls s ++ [Setup.endpoints_telemetry s']
     /\ Setup.errors s' = Setup.errors s)
  /\ (partner = EmptyString \/ location = EmptyString ->
      Setup.endpoints_telemetry s' = Setup.endpoints_telemetry s
      /\ Setup.callback_calls s' = Setup.callback_calls s
      /\ Setup.errors s'
         = Setup.errors s ++ ["Partner or location code is not defined."]).
Proof.
  unfold Setup.setup. split.
  - intros Hp Hl. apply truthy_string_true in Hp, Hl. rewrite Hp, Hl. simpl.
    repeat split. by destruct endpoint as [[|a e]|].
  - intros [-> | ->]; simpl; [done|].
    by rewrite orb_true_r.
Qed.

(** * Instances *)

Section Instances.
Import Event.

(** The queue orders what it is given by priority. *)
Example queue_ordering :
  let q := EventQueue.enqueue 3 (Sample.queued "c")
             (EventQueue.enqueue 1 (Sample.queued "b")
                (EventQueue.enqueue 5 (Sample.queued "a") EventQueue.new)) in
  option_map snd (EventQueue.dequeue EventQueue.recording 10 (Some 3) q [])
    = Some [Some (Sample.queued "b"); Some (Sample.queued "c");
            Some (Sample.queued "a")].
Proof. reflexivity. Qed.

(** Seven items taken three at a time: the third call hands the mapper the
    last item and then [undefined] twice, the fourth [undefined] three
    times. *)
Example batches_of_three :
  let items := [(4, "d"); (1, "a"); (7, "g"); (2, "b"); (6, "f"); (3, "c"); (5, "e")] in
  let q0 := fold_left (fun q item => EventQueue.enqueue (fst item)
                                       (Sample.queued (snd item)) q)
              items EventQueue.new in
  let step q := EventQueue.dequeue EventQueue.recording 10 (Some 3) q [] in
  exists q1 q2 q3 q4,
    step q0 = Some (q1, map (fun id => Some (Sample.queued id)) ["a"; "b"; "c"])
    /\ step q1 = Some (q2, map (fun id => Some (Sample.queued id)) ["d"; "e"; "f"])
    /\ step q2 = Some (q3, [Some (Sample.queued "g"); None; None])
    /\ step q3 = Some (q4, [None; None; None]).
Proof. vm_compute. repeat eexists. Qed.


(** A callback that throws leaves its slot filled, and is invoked again by
    the next call of its trampoline. *)
Remark throwing_callback_invoked_again :
  invoked
    (perform_all Sample.rpcMethod Sample.renderPayload spec_merge Sample.enqueue
       [Call_onSuccess OK; Call_onSuccess OK]
       (snd (dispatch Sample.rpcMethod Sample.renderPayload spec_merge
               Sample.enqueue (Js.Function "s" true) Js.Null Sample.machine)))
    = [SuccessCalled "s" OK; SuccessCalled "s" OK].
Proof. reflexivity. Qed.


Lemma renderContext_raises_iff_missing_witness :
  (context_export Sample.ready = (Return 2%positive, snd (context_export Sample.ready))
   /\ lift_heap (spec_merge 2%positive 1%positive) (snd (context_export Sample.ready))
      = (Return 3%positive, snd (renderContext spec_merge 1%positive Sample.ready))
   /\ heap (snd (renderContext spec_merge 1%positive Sample.ready)) !! 3%positive
      = Some Sample.merged_fields)
  /\ renderContext spec_merge 1%positive Sample.ready
     = (Return 3%positive, snd (renderContext spec_merge 1%positive Sample.ready)).
Proof.
  assert (H1 : context_export Sample.ready = (Return 2%positive, snd (context_export Sample.ready)))
    by (vm_compute; reflexivity).
  assert (H2 : lift_heap (spec_merge 2%positive 1%positive) (snd (context_export Sample.ready))
               = (Return 3%positive, snd (renderContext spec_merge 1%positive Sample.ready)))
    by (vm_compute; reflexivity).
  assert (H3 : heap (snd (renderContext spec_merge 1%positive Sample.ready)) !! 3%positive
               = Some Sample.merged_fields)
    by (vm_compute; reflexivity).
  split; [by repeat split|].
  apply (renderContext_raises_iff_missing Sample.rpcMethod Sample.renderPayload
           spec_merge 1%positive Sample.ready 2%positive _ 3%positive _ Sample.merged_fields
           H1 H2 H3); vm_compute; discriminate.
Defined.

Lemma dispatch_fails_before_enqueue_witness :
  let m := Sample.machine_of Sample.event ∅ in
  let missing := ContextException "Missing device session ID." in
  fst (generateRPC Sample.rpcMethod Sample.renderPayload spec_merge m)
    = Throw missing
  /\ fst (dispatch Sample.rpcMethod Sample.renderPayload spec_merge Sample.enqueue
            (Js.Function "s" false) Js.Null m) = Throw missing
  /\ dispatchState
       (snd (dispatch Sample.rpcMethod Sample.renderPayload spec_merge
               Sample.enqueue (Js.Function "s" false) Js.Null m))
     = dispatchState m.
Proof.
  split; [vm_compute; reflexivity|].
  apply (dispatch_fails_before_enqueue Sample.rpcMethod Sample.renderPayload
           spec_merge Sample.enqueue (Js.Function "s" false) Js.Null
           (Sample.machine_of Sample.event ∅)).
  vm_compute; reflexivity.
Defined.
Lemma renderContext_merges_local_onto_ambient_witness :
  heap Sample.ready !! 1%positive = Some Sample.ambient_context
  /\ renderContext spec_merge 1%positive Sample.ready
     = (Return 3%positive, snd (renderContext spec_merge 1%positive Sample.ready))
  /\ exists p,
       heap (snd (renderContext spec_merge 1%positive Sample.ready)) !! 3%positive
         = Some p
       /\ (forall field v, context (this Sample.ready) !! field = Some v ->
              p !! field = Some v)
       /\ (forall field, context (this Sample.ready) !! field = None ->
              p !! field = Sample.ambient_context !! field).
Proof.
  assert (H1 : heap Sample.ready !! 1%positive = Some Sample.ambient_context)
    by (vm_compute; reflexivity).
  assert (H2 : renderContext spec_merge 1%positive Sample.ready
               = (Return 3%positive,
                  snd (renderContext spec_merge 1%positive Sample.ready)))
    by (vm_compute; reflexivity).
  split; [exact H1|]. split; [exact H2|].
  exact (renderContext_merges_local_onto_ambient 1%positive Sample.ready
           Sample.ambient_context 3%positive _ H1 H2).
Defined.

(** The fingerprint is in both contexts, the group in the ambient one only,
    the section in the local one only. *)
Example merged_fields_of_sample :
  getFingerprint Sample.merged_fields = "device-1"
  /\ getGroup Sample.merged_fields = "session-1"
  /\ getField "section" Sample.merged_fields = "menu"
  /\ getField "partner" Sample.merged_fields = "acme".
Proof. vm_compute. repeat split. Qed.

Lemma renderContext_keeps_ambient_witness :
  keeps_global spec_merge
  /\ heap Sample.ready !! 1%positive = Some Sample.ambient_context
  /\ heap (snd (renderContext spec_merge 1%positive Sample.ready)) !! 1%positive
     = Some Sample.ambient_context
  /\ ambient (snd (renderContext spec_merge 1%positive Sample.ready))
     = ambient Sample.ready
  /\ ambient (snd (generateRPC Sample.rpcMethod Sample.renderPayload spec_merge
                     Sample.ready)) = ambient Sample.ready
  /\ heap (snd (generateRPC Sample.rpcMethod Sample.renderPayload spec_merge
                  Sample.ready)) !! fresh (dom (heap Sample.ready))
     = Some (ambient Sample.ready).
Proof.
  assert (H1 : heap Sample.ready !! 1%positive = Some Sample.ambient_context)
    by (vm_compute; reflexivity).
  split; [exact spec_merge_keeps_global|]. split; [exact H1|].
  exact (renderContext_keeps_ambient Sample.rpcMethod Sample.renderPayload
           spec_merge 1%positive Sample.ready Sample.ambient_context
           spec_merge_keeps_global H1).
Defined.

Lemma renderUUID_stable_and_keys_request_witness :
  let rpc := {| rpc_uuid := "event-1"; rpc_method := "event";
                rpc_onSuccess := BaseEvent_onSuccess;
                rpc_onFailure := BaseEvent_onFailure;
                rpc_payload := ∅; rpc_context := 3%positive |} in
  let cs := [Call_dispatch (Js.Function "s" false) Js.Null; Call_onSuccess OK;
             Call_abort; Call_renderUUID; Call_send] in
  generateRPC Sample.rpcMethod Sample.renderPayload spec_merge Sample.machine
    = (Return rpc,
       snd (generateRPC Sample.rpcMethod Sample.renderPayload spec_merge
              Sample.machine))
  /\ fst (renderUUID
            (perform_all Sample.rpcMethod Sample.renderPayload spec_merge
               Sample.enqueue cs Sample.machine))
     = Return "event-1"
  /\ rpc_uuid rpc = uuid (this Sample.machine)
  /\ EventQueue.uuid
       (fst (EventQueue.prepareQueuedEvent rpc (Some (rpc_uuid rpc))
               Sample.identifiers))
     = uuid (this Sample.machine)
  /\ EventQueue.uuid
       (fst (EventQueue.prepareQueuedEvent rpc None Sample.identifiers))
     = "generated-uuid".
Proof.
  intros rpc cs.
  assert (H : generateRPC Sample.rpcMethod Sample.renderPayload spec_merge
                Sample.machine
              = (Return rpc,
                 snd (generateRPC Sample.rpcMethod Sample.renderPayload
                        spec_merge Sample.machine)))
    by (vm_compute; reflexivity).
  split; [exact H|].
  destruct (renderUUID_stable_and_keys_request Sample.rpcMethod Sample.renderPayload
              spec_merge Sample.enqueue cs Sample.machine Sample.identifiers)
    as (Hstable & _ & Hrpc & _ & Hnone).
  split; [exact Hstable|].
  destruct (Hrpc rpc _ H) as [H1 H2].
  split; [exact H1|]. split; [exact H2|].
  by rewrite (Hnone rpc).
Defined.

(** A queued event prepared without [opt_uuid] is keyed by a generated
    identifier, not by that of the event whose request it holds. *)
Lemma queued_event_keyed_by_generated_uuid :
  let rpc := {| rpc_uuid := "event-1"; rpc_method := "event";
                rpc_onSuccess := BaseEvent_onSuccess;
                rpc_onFailure := BaseEvent_onFailure;
                rpc_payload := ∅; rpc_context := 3%positive |} in
  fst (generateRPC Sample.rpcMethod Sample.renderPayload spec_merge Sample.machine)
    = Return rpc
  /\ fst (renderUUID Sample.machine) = Return "event-1"
  /\ EventQueue.uuid
       (fst (EventQueue.prepareQueuedEvent rpc None Sample.identifiers))
     = "generated-uuid"
  /\ EventQueue.uuid
       (fst (EventQueue.prepareQueuedEvent rpc None Sample.identifiers))
     <> "event-1".
Proof. vm_compute. repeat split. discriminate. Qed.

Lemma renderOccurrence_returns_stored_witness :
  let e := fst (new Sample.local_context "event" None (Some 1400000000000%float)
                  None Sample.env) in
  let m := Sample.machine_of e Sample.ambient_context in
  this m = e
  /\ Js.truthy_number 1400000000000 = true
  /\ fst (renderOccurrence 1600000000000 m) = Return 1400000000000%float.
Proof.
  intros e m. split; [reflexivity|]. split; [reflexivity|].
  destruct (renderOccurrence_returns_stored Sample.local_context "event" None
              (Some 1400000000000%float) None Sample.env m 1600000000000 eq_refl)
    as [Hexplicit _].
  apply Hexplicit; reflexivity.
Defined.

(** An event constructed with the explicit timestamp 0 does not return 0:
    the constructor has stored the reading of the clock. *)
Lemma renderOccurrence_explicit_zero :
  let e := fst (new Sample.local_context "event" None (Some 0%float) None
                  Sample.env) in
  let m := Sample.machine_of e Sample.ambient_context in
  fst (renderOccurrence 1600000000000 m) = Return 1500000000000%float
  /\ fst (renderOccurrence 1600000000000 m) <> Return 0%float.
Proof.
  vm_compute. split; [reflexivity|].
  intros [=].
Qed.

(** Nor does an event constructed with NaN, the timestamp of an invalid date,
    return NaN. *)
Remark renderOccurrence_explicit_nan :
  let e := fst (new Sample.local_context "event" None (Some nan) None Sample.env) in
  let m := Sample.machine_of e Sample.ambient_context in
  fst (renderOccurrence 1600000000000 m) = Return 1500000000000%float.
Proof. reflexivity. Qed.

Lemma empty_uuid_is_replaced_witness :
  let e := fst (new Sample.local_context "event" None None (Some EmptyString)
                  Sample.env) in
  let m := Sample.machine_of e Sample.ambient_context in
  fst (generateUUID (uuids Sample.env)) <> EmptyString
  /\ this m = e
  /\ fst (renderUUID m) = Return "generated-uuid"
  /\ fst (renderUUID m) <> Return EmptyString.
Proof.
  intros e m.
  assert (H : fst (generateUUID (uuids Sample.env)) <> EmptyString)
    by (vm_compute; discriminate).
  split; [exact H|]. split; [reflexivity|].
  destruct (empty_uuid_is_replaced Sample.local_context "event" None None
              Sample.env m H eq_refl) as (H1 & H2 & _).
  split; [exact H1 | exact H2].
Defined.

Lemma setup_validates_then_configures_witness :
  let s0 := {| Setup.endpoints_telemetry := "unset"; Setup.callback_calls := [];
               Setup.errors := []; Setup.messages := [] |} in
  ("acme" <> EmptyString /\ "downtown" <> EmptyString
   /\ Setup.endpoints_telemetry
        (Setup.setup "https://telemetry.example" "acme" "downtown" "key" None s0)
      = "https://telemetry.example"
   /\ Setup.callback_calls
        (Setup.setup "https://telemetry.example" "acme" "downtown" "key" None s0)
      = ["https://telemetry.example"])
  /\ Setup.endpoints_telemetry
       (Setup.setup "https://telemetry.example" "acme" EmptyString "key"
          (Some "https://override.example") s0) = "unset"
  /\ Setup.callback_calls
       (Setup.setup "https://telemetry.example" "acme" EmptyString "key"
          (Some "https://override.example") s0) = [].
Proof.
  intros s0.
  destruct (setup_validates_then_configures "https://telemetry.example"
              "acme" "downtown" "key" None s0) as [Hok _].
  destruct (setup_validates_then_configures "https://telemetry.example"
              "acme" EmptyString "key" (Some "https://override.example") s0)
    as [_ Hbad].
  assert (Hp : "acme" <> EmptyString) by discriminate.
  assert (Hl : "downtown" <> EmptyString) by discriminate.
  destruct (Hok Hp Hl) as (H1 & H2 & _).
  destruct (Hbad (or_intror eq_refl)) as (H3 & H4 & _).
  repeat split; assumption.
Defined.
End Instances.

(** * Further properties *)

(** ** The event queue *)

Section QueueMore.
Import EventQueue.
Context {W : Type}.
Variable mapper : option QueuedEvent -> W -> W.
Variable BATCH_SIZE : Z.

Lemma handed_app n1 n2 (q : list (Z * QueuedEvent)) :
  handed (n1 + n2) q = handed n1 q ++ handed n2 (drop n1 q).
Proof.
  revert q. induction n1 as [|n1 IH]; intros q; simpl.
  - by rewrite drop_0.
  - rewrite IH. destruct q as [|[k v] rest]; simpl; by rewrite ?drop_nil.
Qed.

Lemma queue_eta (q : t) : {| queue := queue q; logged := logged q |} = q.
Proof. by destruct q. Qed.


(** X2.  An amount that is zero or negative makes [dequeue] do nothing: the
    mapper is not called and the queue is as it was. *)
Theorem dequeue_nothing_for_nonpositive_amount amount q w :
  amount <= 0 ->
  dequeue mapper BATCH_SIZE (Some amount) q w = Some (q, w).
Proof.
  intros Hle. rewrite dequeue_returns. simpl.
  replace (Z.to_nat amount) with 0%nat by lia.
  simpl. by rewrite drop_0, queue_eta.
Qed.

(** X3.  For whole amounts [a] and [b] that are not negative, with [a + b]
    up to 2^53: taking [a] items and then [b] items is taking [a + b] items
    at once, the same calls of the mapper in the same order, and the same
    queue left. *)
Theorem dequeue_in_two_steps a b q w :
  0 <= a -> 0 <= b -> a + b <= 2 ^ 53 ->
  dequeue mapper BATCH_SIZE (Some (a + b)) q w =
    match dequeue mapper BATCH_SIZE (Some a) q w with
    | Some (q1, w1) => dequeue mapper BATCH_SIZE (Some b) q1 w1
    | None => None
    end.
Proof.
  intros Ha Hb _. rewrite !dequeue_returns. simpl.
  replace (Z.to_nat (a + b)) with (Z.to_nat a + Z.to_nat b)%nat by lia.
  rewrite handed_app, fold_left_app, drop_drop. done.
Qed.
End QueueMore.

(** Where the whole numbers of [dequeue] stop standing for the numbers of the
    source: the counter of a fractional amount goes round once more than the
    amount has whole units, that of NaN not at all, and that of infinity or
    of a number too large for taking one away to change it never stops. *)
Remark rounds_beyond_whole_numbers :
  EventQueue.rounds 10 3 = Some 3%nat
  /\ EventQueue.rounds 10 2.5 = Some 3%nat
  /\ EventQueue.rounds 10 0.5 = Some 1%nat
  /\ EventQueue.rounds 10 nan = Some 0%nat
  /\ EventQueue.rounds 10 (-4) = Some 0%nat
  /\ (forall fuel, EventQueue.rounds fuel infinity = None)
  /\ (forall fuel, EventQueue.rounds fuel 1e16 = None).
Proof.
  repeat split; try reflexivity.
  - intros fuel. induction fuel as [|fuel IH]; [reflexivity|].
    change (EventQueue.rounds (S fuel) infinity)
      with (option_map S (EventQueue.rounds fuel infinity)).
    by rewrite IH.
  - intros fuel. induction fuel as [|fuel IH]; [reflexivity|].
    change (EventQueue.rounds (S fuel) 1e16)
      with (option_map S (EventQueue.rounds fuel 1e16)).
    by rewrite IH.
Qed.

Section QueueOrder.
Import EventQueue.

Lemma insert_perm {V} k (v : V) q : PriorityQueue.insert k v q ≡ₚ (k, v) :: q.
Proof.
  induction q as [|[k' w] rest IH]; simpl; [done|].
  destruct (k <? k')%Z; [done|].
  rewrite IH. apply Permutation_swap.
Qed.

Lemma enqueue_all_sorted_perm items : forall q,
  PriorityQueue.sorted (queue q) ->
  PriorityQueue.sorted (queue (Scenario.enqueue_all items q))
  /\ queue (Scenario.enqueue_all items q) ≡ₚ queue q ++ items.
Proof.
  induction items as [|[k ev] items IH]; intros q Hs; simpl.
  - by rewrite app_nil_r.
  - destruct (IH (enqueue k ev q)) as [Hs' Hp].
    + simpl. by apply insert_sorted.
    + split; [done|]. rewrite Hp. simpl. unfold PriorityQueue.enqueue.
      rewrite insert_perm. apply Permutation_middle.
Qed.

(** X4.  After any items have been enqueued on a new queue, the queue holds
    exactly these items, ordered by priority, smallest first; and a
    [dequeue] of as many items as were enqueued hands each of them to the
    mapper once, in that order, and leaves the queue empty. *)
Theorem enqueued_items_leave_by_priority BATCH_SIZE items :
  let q := Scenario.enqueue_all items new in
  PriorityQueue.sorted (queue q)
  /\ queue q ≡ₚ items
  /\ dequeue recording BATCH_SIZE (Some (Z.of_nat (length items))) q []
     = Some ({| queue := []; logged := logged q |},
             map (fun e => Some (snd e)) (queue q)).
Proof.
  intros q. destruct (enqueue_all_sorted_perm items new) as [Hs Hp]; [done|].
  fold q in Hs, Hp. simpl in Hp. split; [done|]. split; [done|].
  assert (Hlen : length (queue q) = length items) by by rewrite Hp.
  rewrite dequeue_enough_items by lia.
  rewrite Nat2Z.id, <- Hlen, firstn_all, drop_all. done.
Qed.

(** X5.  An event enqueued under a priority smaller than all those in the
    queue is the next one to leave: a [dequeue] of one item right after hands
    the mapper this event, and leaves the items that were there before. *)
Theorem enqueued_first_leaves_first BATCH_SIZE priority ev q calls :
  (forall e, e ∈ queue q -> priority < fst e) ->
  dequeue recording BATCH_SIZE (Some 1) (enqueue priority ev q) calls
    = Some ({| queue := queue q; logged := logged (enqueue priority ev q) |},
            calls ++ [Some ev]).
Proof.
  intros Hmin.
  assert (Hq : queue (enqueue priority ev q) = (priority, ev) :: queue q).
  { simpl. unfold PriorityQueue.enqueue.
    destruct (queue q) as [|[k w] rest] eqn:E; simpl; [done|].
    assert (priority < k) by (apply (Hmin (k, w)); left).
    destruct (Z.ltb_spec priority k); [done | lia]. }
  rewrite dequeue_enough_items by (rewrite Hq; simpl; lia).
  rewrite Hq. done.
Qed.
End QueueOrder.

(** ** The base event *)

Section EventMore.
Import Event.
Variable rpcMethod : BaseEvent -> Routine.
Variable renderPayload : BaseEvent -> option (gmap string string).
Variable proto_merge : loc -> loc -> HeapOp loc.
Variable telemetry_enqueue : TelemetryRPC -> Dispatch -> Dispatch.

Lemma register_register s1 f1 s2 f2 e :
  register s2 f2 (register s1 f1 e) = register s2 f2 e.
Proof. done. Qed.

(** The request that [generateRPC] returns on an event with other callbacks:
    the same but for what the abstract methods make of the callbacks. *)
Lemma generateRPC_returns_with_this f m rpc m1 :
  context (f (this m)) = context (this m) ->
  generateRPC rpcMethod renderPayload proto_merge m = (Return rpc, m1) ->
  generateRPC rpcMethod renderPayload proto_merge (with_this f m) =
    (Return {| rpc_uuid := uuid (f (this m));
               rpc_method := rpcMethod (f (this m));
               rpc_onSuccess := BaseEvent_onSuccess;
               rpc_onFailure := BaseEvent_onFailure;
               rpc_payload := match renderPayload (f (this m)) with
                              | None => ∅
                              | Some p => p
                              end;
               rpc_context := rpc_context rpc |},
     with_this f m1).
Proof.
  intros Hctx. rewrite !generateRPC_cases. cbv zeta. simpl.
  change (with_heap ?h (with_this f m)) with (with_this f (with_heap h m)).
  rewrite renderContext_with_this by done.
  pose proof (renderContext_frame proto_merge (fresh (dom (heap m)))
    (with_heap (<[fresh (dom (heap m)) := ambient m]> (heap m)) m)) as Hr.
  destruct (renderContext proto_merge _ _) as [[merged|e'] m']; simpl in *; [|done].
  destruct Hr as (Hthis & _).
  intros [= <- <-]. simpl. by rewrite Hthis.
Qed.

(** X6.  [dispatch] stores the callbacks before it generates the request, so
    they stay registered when the generation fails: [dispatch] ends in the
    exception, and a call of [onSuccess] after that still invokes the success
    callback, if it is a function. *)
Theorem failed_dispatch_leaves_callbacks_registered success failure status m e :
  fst (generateRPC rpcMethod renderPayload proto_merge m) = Throw e ->
  Js.throws success = false ->
  let dispatched :=
    dispatch rpcMethod renderPayload proto_merge telemetry_enqueue
      success failure m in
  fst dispatched = Throw e
  /\ this (snd dispatched) = register success failure (this m)
  /\ invoked (snd (onSuccess status (snd dispatched)))
     = invoked m ++ success_calls success [Call_onSuccess status].
Proof.
  intros Hgen Hs dispatched. subst dispatched.
  destruct (dispatch_frame rpcMethod renderPayload proto_merge telemetry_enqueue
              success failure m) as (Hthis & Hinv & _).
  split.
  { rewrite dispatch_cases.
    by rewrite (generateRPC_throws_with_this rpcMethod renderPayload proto_merge
                  (register success failure) m e). }
  split; [done|].
  rewrite onSuccess_cases, Hthis. simpl.
  destruct success as [|name [|]|[|]]; simpl in *; try discriminate;
    by rewrite ?Hinv, ?app_nil_r.
Qed.

(** X7.  [dispatch] replaces the callbacks registered before: after two
    calls of [dispatch], the event is what the second alone makes of it, and
    no callback has been invoked. *)
Theorem redispatch_replaces_callbacks s1 f1 s2 f2 m :
  let m1 :=
    snd (dispatch rpcMethod renderPayload proto_merge telemetry_enqueue s1 f1 m) in
  let m2 :=
    snd (dispatch rpcMethod renderPayload proto_merge telemetry_enqueue s2 f2 m1) in
  this m2
    = this (snd (dispatch rpcMethod renderPayload proto_merge telemetry_enqueue
                  s2 f2 m))
  /\ successCallback (this m2) = Js.or_null s2
  /\ failureCallback (this m2) = Js.or_null f2
  /\ invoked m2 = invoked m.
Proof.
  cbv zeta.
  destruct (dispatch_frame rpcMethod renderPayload proto_merge telemetry_enqueue
              s1 f1 m) as (H1 & I1 & _).
  destruct (dispatch_frame rpcMethod renderPayload proto_merge telemetry_enqueue
              s2 f2
              (snd (dispatch rpcMethod renderPayload proto_merge telemetry_enqueue
                      s1 f1 m))) as (H2 & I2 & _).
  destruct (dispatch_frame rpcMethod renderPayload proto_merge telemetry_enqueue
              s2 f2 m) as (H3 & _).
  rewrite H2, H1, H3, I2, I1. done.
Qed.

(** X8.  [send] registers no callback and drops those of an earlier
    [dispatch]: whatever calls of the trampolines follow it, no callback is
    invoked. *)
Theorem send_silences_callbacks success failure m ts :
  forallb is_trampoline ts = true ->
  let dispatched :=
    snd (dispatch rpcMethod renderPayload proto_merge telemetry_enqueue
           success failure m) in
  let sent :=
    snd (send rpcMethod renderPayload proto_merge telemetry_enqueue dispatched) in
  invoked (perform_all rpcMethod renderPayload proto_merge telemetry_enqueue ts sent)
    = invoked m.
Proof.
  intros Htr. cbv zeta. unfold send.
  destruct (dispatch_frame rpcMethod renderPayload proto_merge telemetry_enqueue
              success failure m) as (_ & I1 & _).
  destruct (dispatch_frame rpcMethod renderPayload proto_merge telemetry_enqueue
              Js.Null Js.Null
              (snd (dispatch rpcMethod renderPayload proto_merge telemetry_enqueue
                      success failure m))) as (H2 & I2 & _).
  destruct (trampolines_from rpcMethod renderPayload proto_merge telemetry_enqueue
              ts
              (snd (dispatch rpcMethod renderPayload proto_merge telemetry_enqueue
                      Js.Null Js.Null
                      (snd (dispatch rpcMethod renderPayload proto_merge telemetry_enqueue
                              success failure m))))
              Htr) as (new & Hnew & Hns & Hnf).
  rewrite H2 in Hns, Hnf. simpl in Hns, Hnf.
  specialize (Hns eq_refl). specialize (Hnf eq_refl).
  assert (new = []) as ->.
  { destruct new as [|[] new]; [done|simpl in *; discriminate..]. }
  by rewrite Hnew, app_nil_r, I2, I1.
Qed.

(** X9.  A trampoline whose callback returns is idempotent: a second call
    of [onSuccess], or of [onFailure], changes nothing. *)
Theorem trampoline_idempotent m :
  (Js.throws (successCallback (this m)) = false ->
   forall status status',
     onSuccess status' (snd (onSuccess status m))
       = (Return tt, snd (onSuccess status m)))
  /\ (Js.throws (failureCallback (this m)) = false ->
      forall op error code op' error' code',
        onFailure op' error' code' (snd (onFailure op error code m))
          = (Return tt, snd (onFailure op error code m))).
Proof.
  split.
  - intros Hs status status'. rewrite (onSuccess_cases status m).
    destruct (successCallback (this m)) as [|name [|]|b]; try discriminate;
      by rewrite onSuccess_cases.
  - intros Hf op error code op' error' code'.
    rewrite (onFailure_cases op error code m).
    destruct (failureCallback (this m)) as [|name [|]|b]; try discriminate;
      by rewrite onFailure_cases.
Qed.

(** X10.  A success callback that throws is not cleared: every call of
    [onSuccess] invokes it and ends in its exception, so [n] calls invoke it
    [n] times. *)
Theorem throwing_callback_invoked_every_time name status n : forall m,
  successCallback (this m) = Js.Function name true ->
  onSuccess status m
    = (Throw (CallbackError name),
       with_invoked (invoked m ++ [SuccessCalled name status]) m)
  /\ invoked (perform_all rpcMethod renderPayload proto_merge telemetry_enqueue
                (replicate n (Call_onSuccess status)) m)
     = invoked m ++ replicate n (SuccessCalled name status)
  /\ successCallback
       (this (perform_all rpcMethod renderPayload proto_merge telemetry_enqueue
                (replicate n (Call_onSuccess status)) m))
     = Js.Function name true.
Proof.
  induction n as [|n IH]; intros m Hcb.
  - rewrite onSuccess_cases, Hcb. simpl. by rewrite app_nil_r.
  - assert (Hstep : onSuccess status m
      = (Throw (CallbackError name),
         with_invoked (invoked m ++ [SuccessCalled name status]) m))
      by (by rewrite onSuccess_cases, Hcb).
    split; [done|].
    unfold perform_all. cbn [replicate fold_left perform]. rewrite Hstep.
    destruct (IH (with_invoked (invoked m ++ [SuccessCalled name status]) m) Hcb)
      as (_ & Hinv & Hslot).
    unfold perform_all in Hinv, Hslot. cbn [snd]. rewrite Hinv, Hslot.
    simpl. by rewrite <- app_assoc.
Qed.

(** X11.  [validateContext] looks at the fingerprint first: a context
    without a fingerprint is refused for that, whatever its group; one with a
    fingerprint and without a group is refused for the missing session.  The
    state is not changed. *)
Theorem validateContext_checks_fingerprint_first c m p :
  heap m !! c = Some p ->
  (getFingerprint p = EmptyString ->
   validateContext c m
     = (Throw (ContextException "Missing device fingerprint ID."), m))
  /\ (getFingerprint p <> EmptyString -> getGroup p = EmptyString ->
      validateContext c m
        = (Throw (ContextException "Missing device session ID."), m)).
Proof.
  intros Hc. rewrite validateContext_cases, Hc. split.
  - intros Hf. apply truthy_string_false in Hf. by rewrite Hf.
  - intros Hf Hg. apply truthy_string_true in Hf.
    apply truthy_string_false in Hg. by rewrite Hf, Hg.
Qed.

(** X12.  [generateRPC] leaves the event, the dispatch state, the ambient
    context and the trace of callbacks as they are; it writes its log line
    when it returns, and none when it throws. *)
Theorem generateRPC_only_logs m :
  let m' := snd (generateRPC rpcMethod renderPayload proto_merge m) in
  this m' = this m /\ dispatchState m' = dispatchState m
  /\ ambient m' = ambient m /\ invoked m' = invoked m /\ aborted m' = aborted m
  /\ logs m' = match fst (generateRPC rpcMethod renderPayload proto_merge m) with
               | Return _ => logs m ++ ["Preparing RPC."]
               | Throw _ => logs m
               end.
Proof.
  destruct (generateRPC_frame rpcMethod renderPayload proto_merge m)
    as (H1 & H2 & H3 & H4 & H5).
  simpl. repeat split; try done.
  rewrite generateRPC_cases. cbv zeta.
  pose proof (renderContext_frame proto_merge (fresh (dom (heap m)))
    (with_heap (<[fresh (dom (heap m)) := ambient m]> (heap m)) m)) as Hr.
  destruct (renderContext proto_merge _ _) as [[merged|e'] m1]; simpl in *;
    destruct Hr as (_ & _ & _ & _ & _ & ->); done.
Qed.

(** X13.  When the request can be generated, [dispatch] returns and has
    called [enqueue] once, on the dispatch state as it was, with a request
    that carries the identifier of the event and the merged context; no
    callback has been invoked. *)
Theorem dispatch_enqueues_request_once success failure m rpc m1 :
  generateRPC rpcMethod renderPayload proto_merge m = (Return rpc, m1) ->
  exists rpc' m',
    dispatch rpcMethod renderPayload proto_merge telemetry_enqueue success failure m
      = (Return tt, m')
    /\ dispatchState m' = telemetry_enqueue rpc' (dispatchState m)
    /\ rpc_uuid rpc' = uuid (this m)
    /\ rpc_context rpc' = rpc_context rpc
    /\ heap m' = heap m1
    /\ invoked m' = invoked m.
Proof.
  intros Hgen.
  pose proof (generateRPC_frame rpcMethod renderPayload proto_merge m) as Hf.
  rewrite Hgen in Hf. simpl in Hf. destruct Hf as (_ & _ & Hd & Hi & _).
  eexists _, _. rewrite dispatch_cases.
  rewrite (generateRPC_returns_with_this (register success failure) m rpc m1);
    [|done|done].
  split; [reflexivity|]. simpl. by rewrite Hd, Hi.
Qed.

(** X14.  [abort] hands the identifier of the event to the abort of the
    transport, the same identifier after any calls of the methods, and
    changes nothing else. *)
Theorem abort_uses_stable_uuid cs m :
  let m1 := perform_all rpcMethod renderPayload proto_merge telemetry_enqueue cs m in
  abort m1 = (Return tt, with_aborted (aborted m1 ++ [uuid (this m)]) m1).
Proof.
  intros m1. unfold abort, renderUUID, telemetry_abort, bind, gets, modify.
  simpl. unfold m1. by rewrite perform_all_keeps_uuid.
Qed.

(** X15.  An event comes out of the constructor with no callback: until a
    [dispatch], calls of the trampolines invoke nothing. *)
Theorem fresh_event_trampolines_do_nothing ctx method pl opt_occurred opt_uuid env
    m ts :
  this m = fst (new ctx method pl opt_occurred opt_uuid env) ->
  forallb is_trampoline ts = true ->
  invoked (perform_all rpcMethod renderPayload proto_merge telemetry_enqueue ts m)
    = invoked m.
Proof.
  intros Hthis Htr.
  assert (Hslots : successCallback (this m) = Js.Null
                   /\ failureCallback (this m) = Js.Null).
  { rewrite Hthis. unfold new.
    destruct opt_uuid as [u|]; [destruct (Js.truthy_string u)|];
      try done; by destruct (generateUUID (uuids env)). }
  destruct Hslots as [Hs Hf].
  destruct (trampolines_from rpcMethod renderPayload proto_merge telemetry_enqueue
              ts m Htr) as (new & Hnew & Hns & Hnf).
  rewrite Hs in Hns. rewrite Hf in Hnf. simpl in Hns, Hnf.
  specialize (Hns eq_refl). specialize (Hnf eq_refl).
  assert (new = []) as ->.
  { destruct new as [|[] new]; [done|simpl in *; discriminate..]. }
  by rewrite Hnew, app_nil_r.
Qed.
End EventMore.

(** ** The base64 rendering *)

Section EncodingFacts.
Import Encoding.

Lemma append_cons a s t : String a s +:+ t = String a (s +:+ t).
Proof. reflexivity. Qed.

Lemma append_nil_r s : s +:+ EmptyString = s.
Proof. induction s as [|a s IH]; [done|]. by rewrite append_cons, IH. Qed.

Lemma append_assoc s t u : (s +:+ t) +:+ u = s +:+ (t +:+ u).
Proof. induction s as [|a s IH]; [done|]. by rewrite !append_cons, IH. Qed.

Lemma fromCharCode_app l1 l2 :
  fromCharCode (l1 ++ l2) = fromCharCode l1 +:+ fromCharCode l2.
Proof.
  unfold fromCharCode, String.string_of_list_byte.
  induction l1 as [|b l1 IH]; [done|].
  cbn [app map String.string_of_list_ascii]. by rewrite append_cons, IH.
Qed.

Lemma fromCharCode_length l : String.length (fromCharCode l) = length l.
Proof.
  unfold fromCharCode, String.string_of_list_byte.
  induction l as [|b l IH]; [done|].
  cbn [map String.string_of_list_ascii String.length length].
  by rewrite IH.
Qed.

Lemma join_snoc c x : join (c ++ [x]) = join c +:+ x.
Proof.
  induction c as [|y c IH]; cbn [app join fold_right].
  - by rewrite append_nil_r.
  - fold (join (c ++ [x])). fold (join c). by rewrite IH, append_assoc.
Qed.

(** The loop by its invariant: what has been pushed so far, joined, is the
    characters of the bytes before index [i]. *)
Lemma chunks_loop_spec sz u8a :
  0 < sz ->
  forall fuel i c,
    0 <= i ->
    (length u8a - Z.to_nat i <= fuel)%nat ->
    Forall (fun s => Z.of_nat (String.length s) <= sz) c ->
    exists c',
      chunks_loop sz fuel i u8a c = Some c'
      /\ join c' = join c +:+ fromCharCode (drop (Z.to_nat i) u8a)
      /\ Forall (fun s => Z.of_nat (String.length s) <= sz) c'.
Proof.
  intros Hsz. induction fuel as [|fuel IH]; intros i c Hi Hfuel Hc;
    cbn [chunks_loop]; destruct (Z.ltb_spec i (Z.of_nat (length u8a))) as [Hlt|Hge].
  - lia.
  - exists c. rewrite drop_ge by lia. by rewrite append_nil_r.
  - destruct (IH (i + sz) (c ++ [fromCharCode (subarray i (i + sz) u8a)]))
      as (c' & Hloop & Hjoin & Hall).
    + lia.
    + lia.
    + apply Forall_app. split; [done|]. apply Forall_singleton.
      rewrite fromCharCode_length. unfold subarray. rewrite length_take. lia.
    + exists c'. split; [done|]. split; [|done].
      rewrite Hjoin, join_snoc, append_assoc, <- fromCharCode_app.
      unfold subarray.
      replace (Z.to_nat (i + sz)) with (Z.to_nat i + Z.to_nat (i + sz - i))%nat by lia.
      by rewrite <- drop_drop, take_drop.
  - exists c. rewrite drop_ge by lia. by rewrite append_nil_r.
Qed.

(** X16.  [encodeUint8Array_] returns, for every array of bytes, the base64
    rendering of the string that has one character per byte, in order:
    cutting the array in chunks does not show in the result. *)
Theorem encodeUint8Array_ignores_chunking (btoa : string -> string) u8a :
  encodeUint8Array_ btoa u8a = Some (btoa (fromCharCode u8a)).
Proof.
  unfold encodeUint8Array_.
  destruct (chunks_loop_spec CHUNK_SZ u8a eq_refl (length u8a) 0 [])
    as (c & -> & Hjoin & _); [lia | lia | done |].
  by rewrite Hjoin.
Qed.

(** X17.  The loop of [encodeUint8Array_] ends for every array, and no chunk
    that it hands to [String.fromCharCode] has more than [CHUNK_SZ] (32768)
    bytes. *)
Theorem encodeUint8Array_chunks_bounded u8a :
  exists c,
    chunks_loop CHUNK_SZ (length u8a) 0 u8a [] = Some c
    /\ Forall (fun s => Z.of_nat (String.length s) <= 32768) c.
Proof.
  destruct (chunks_loop_spec CHUNK_SZ u8a eq_refl (length u8a) 0 [])
    as (c & Hloop & _ & Hall); [lia | lia | done |].
  by exists c.
Qed.
End EncodingFacts.

(** ** Boot and setup *)

Section BootFacts.
Import Boot.

(** X18.  [boot] without opt-out logs and pings once; when the reply comes,
    the callback logs the latency and asks again whether the user has opted
    out: if so by then, the initial events are skipped with a warning,
    otherwise they are announced.  Nothing else is logged. *)
Theorem boot_then_ping_reply latency opted_out_by_then s :
  optedOut s = false ->
  let s' := ping_callback latency (set_optedOut opted_out_by_then (boot s)) in
  pings s' = S (pings s)
  /\ messages s'
     = messages s
       ++ ["Sending initial telemetry ping...";
           "Telemetry service is online. Ping latency: " +:+ pretty latency +:+ "ms."]
       ++ (if opted_out_by_then then [] else ["Would send initial events."])
  /\ warnings s'
     = warnings s
       ++ (if opted_out_by_then
           then ["User opted-out of telemetry, skipping initial events."]
           else []).
Proof.
  intros Hs. unfold boot, ping_callback, sendInitialEvents. rewrite Hs. simpl.
  destruct opted_out_by_then; simpl; rewrite <- ?app_assoc, ?app_nil_r; done.
Qed.

(** X19.  For a user who has opted out, [boot] makes no ping, and neither
    it nor a call of [sendInitialEvents] after it logs anything but its
    warning. *)
Theorem boot_opted_out_makes_no_ping s :
  optedOut s = true ->
  pings (boot s) = pings s
  /\ messages (boot s) = messages s
  /\ warnings (boot s)
     = warnings s ++ ["User opted-out of telemetry, skipping initial ping."]
  /\ pings (sendInitialEvents (boot s)) = pings s
  /\ messages (sendInitialEvents (boot s)) = messages s
  /\ warnings (sendInitialEvents (boot s))
     = warnings s ++ ["User opted-out of telemetry, skipping initial ping.";
                      "User opted-out of telemetry, skipping initial events."].
Proof.
  intros Hs. unfold boot, sendInitialEvents. rewrite Hs. simpl. rewrite Hs. simpl.
  by rewrite <- app_assoc.
Qed.
End BootFacts.

(** [setup] makes no use of the API key: two calls that differ in the key
    only have the same effect. *)
Remark setup_ignores_apikey (TELEMETRY_API_ENDPOINT : string)
    partner location apikey apikey' endpoint s :
  Setup.setup TELEMETRY_API_ENDPOINT partner location apikey endpoint s
    = Setup.setup TELEMETRY_API_ENDPOINT partner location apikey' endpoint s.
Proof. reflexivity. Qed.

(** X20.  A call of [setup] that fails validation leaves the configuration
    of an earlier call in place: the endpoint stays that of the earlier call,
    and the callback has been called for the earlier call only. *)
Theorem setup_failure_keeps_configuration (TELEMETRY_API_ENDPOINT : string)
    partner location apikey endpoint partner' location' apikey' endpoint' s :
  partner <> EmptyString -> location <> EmptyString ->
  partner' = EmptyString \/ location' = EmptyString ->
  let s1 := Setup.setup TELEMETRY_API_ENDPOINT partner location apikey endpoint s in
  let s2 := Setup.setup TELEMETRY_API_ENDPOINT partner' location' apikey' endpoint' s1 in
  Setup.endpoints_telemetry s2 = Js.or_else_string endpoint TELEMETRY_API_ENDPOINT
  /\ Setup.callback_calls s2
     = Setup.callback_calls s ++ [Js.or_else_string endpoint TELEMETRY_API_ENDPOINT].
Proof.
  intros Hp Hl Hbad. apply truthy_string_true in Hp, Hl.
  assert (Hb : negb (Js.truthy_string partner') || negb (Js.truthy_string location')
               = true).
  { destruct Hbad as [-> | ->]; simpl; [done | by rewrite orb_true_r]. }
  unfold Setup.setup. rewrite Hp, Hl, Hb. done.
Qed.

(** X21.  The two places that take an optional identifier treat the empty
    string differently: [prepareQueuedEvent] keys the queued event by it and
    leaves the generator alone, the constructor of the event replaces it by
    a generated identifier. *)
Theorem empty_identifier_kept_by_prepareQueuedEvent rpc g ctx method pl
    opt_occurred env :
  EventQueue.prepareQueuedEvent rpc (Some EmptyString) g
    = ({| EventQueue.uuid := EmptyString; EventQueue.rpc := rpc |}, g)
  /\ Event.uuid (fst (Event.new ctx method pl opt_occurred (Some EmptyString) env))
     = fst (generateUUID (Event.uuids env)).
Proof. split; [done|]. by rewrite new_uuid. Qed.

(** ** Instances of the further properties *)

Section MoreInstances.
Import Event.

Lemma dequeue_nothing_for_nonpositive_amount_witness :
  let q := EventQueue.enqueue 2 (Sample.queued "a") EventQueue.new in
  -2 <= 0
  /\ EventQueue.dequeue EventQueue.recording 10 (Some (-2)) q [] = Some (q, []).
Proof.
  intros q. split; [lia|].
  apply (dequeue_nothing_for_nonpositive_amount EventQueue.recording 10 (-2) q []).
  lia.
Defined.

Lemma dequeue_in_two_steps_witness :
  let q := Scenario.enqueue_all
             [(3, Sample.queued "c"); (1, Sample.queued "a"); (2, Sample.queued "b")]
             EventQueue.new in
  (0 <= 1 /\ 0 <= 2 /\ 1 + 2 <= 2 ^ 53)
  /\ EventQueue.dequeue EventQueue.recording 10 (Some (1 + 2)) q []
     = match EventQueue.dequeue EventQueue.recording 10 (Some 1) q [] with
       | Some (q1, w1) => EventQueue.dequeue EventQueue.recording 10 (Some 2) q1 w1
       | None => None
       end.
Proof.
  intros q.
  assert (H : 1 + 2 <= 2 ^ 53) by (vm_compute; discriminate).
  split; [repeat split; [lia | lia | exact H]|].
  apply (dequeue_in_two_steps EventQueue.recording 10 1 2 q []); [lia | lia | exact H].
Defined.


Lemma enqueued_first_leaves_first_witness :
  let q := EventQueue.enqueue 5 (Sample.queued "a") EventQueue.new in
  EventQueue.dequeue EventQueue.recording 10 (Some 1)
    (EventQueue.enqueue 1 (Sample.queued "b") q) []
  = Some ({| EventQueue.queue := EventQueue.queue q;
             EventQueue.logged :=
               EventQueue.logged (EventQueue.enqueue 1 (Sample.queued "b") q) |},
          [] ++ [Some (Sample.queued "b")]).
Proof.
  intros q.
  apply (enqueued_first_leaves_first 10 1 (Sample.queued "b") q []).
  intros e He. apply list_elem_of_singleton in He. subst e. simpl. lia.
Defined.

Lemma failed_dispatch_leaves_callbacks_registered_witness :
  let generated :=
    generateRPC Sample.rpcMethod Sample.renderPayload spec_merge
      Sample.machine_without_group in
  let dispatched :=
    dispatch Sample.rpcMethod Sample.renderPayload spec_merge Sample.enqueue
      (Js.Function "s" false) Js.Null Sample.machine_without_group in
  fst generated = Throw (ContextException "Missing device session ID.")
  /\ fst dispatched = Throw (ContextException "Missing device session ID.")
  /\ invoked (snd (onSuccess OK (snd dispatched))) = [SuccessCalled "s" OK].
Proof.
  intros generated dispatched.
  assert (H : fst generated = Throw (ContextException "Missing device session ID."))
    by (vm_compute; reflexivity).
  split; [exact H|].
  destruct (failed_dispatch_leaves_callbacks_registered Sample.rpcMethod
              Sample.renderPayload spec_merge Sample.enqueue
              (Js.Function "s" false) Js.Null OK Sample.machine_without_group
              _ H eq_refl) as (H1 & _ & H3).
  split; [exact H1 | exact H3].
Defined.

Lemma send_silences_callbacks_witness :
  let ts := [Call_onSuccess OK; Call_onFailure ERROR None None] in
  forallb is_trampoline ts = true
  /\ invoked
       (perform_all Sample.rpcMethod Sample.renderPayload spec_merge Sample.enqueue ts
          (snd (send Sample.rpcMethod Sample.renderPayload spec_merge Sample.enqueue
                  (snd (dispatch Sample.rpcMethod Sample.renderPayload spec_merge
                          Sample.enqueue (Js.Function "s" false)
                          (Js.Function "f" false) Sample.machine)))))
     = invoked Sample.machine.
Proof.
  intros ts. split; [reflexivity|].
  apply (send_silences_callbacks Sample.rpcMethod Sample.renderPayload spec_merge
           Sample.enqueue (Js.Function "s" false) (Js.Function "f" false)
           Sample.machine ts).
  reflexivity.
Defined.

Lemma trampoline_idempotent_witness :
  let m := snd (dispatch Sample.rpcMethod Sample.renderPayload spec_merge
                  Sample.enqueue (Js.Function "s" false) Js.Null Sample.machine) in
  Js.throws (successCallback (this m)) = false
  /\ onSuccess ERROR (snd (onSuccess OK m)) = (Return tt, snd (onSuccess OK m)).
Proof.
  intros m.
  assert (H : Js.throws (successCallback (this m)) = false) by reflexivity.
  split; [exact H|].
  destruct (trampoline_idempotent m) as [Hs _].
  exact (Hs H OK ERROR).
Defined.

Lemma throwing_callback_invoked_every_time_witness :
  let m := snd (dispatch Sample.rpcMethod Sample.renderPayload spec_merge
                  Sample.enqueue (Js.Function "s" true) Js.Null Sample.machine) in
  successCallback (this m) = Js.Function "s" true
  /\ invoked (perform_all Sample.rpcMethod Sample.renderPayload spec_merge
                Sample.enqueue (replicate 3 (Call_onSuccess OK)) m)
     = invoked m ++ replicate 3 (SuccessCalled "s" OK).
Proof.
  intros m.
  assert (H : successCallback (this m) = Js.Function "s" true) by reflexivity.
  split; [exact H|].
  destruct (throwing_callback_invoked_every_time Sample.rpcMethod
              Sample.renderPayload spec_merge Sample.enqueue "s" OK 3 m H)
    as (_ & Hinv & _).
  exact Hinv.
Defined.

Lemma validateContext_checks_fingerprint_first_witness :
  let m := snd (globalContext_export Sample.machine_without_group) in
  heap m !! 1%positive = Some ∅
  /\ validateContext 1%positive m
     = (Throw (ContextException "Missing device fingerprint ID."), m).
Proof.
  intros m.
  assert (H : heap m !! 1%positive = Some ∅) by (vm_compute; reflexivity).
  split; [exact H|].
  destruct (validateContext_checks_fingerprint_first 1%positive m ∅ H) as [Hf _].
  apply Hf. reflexivity.
Defined.

Lemma dispatch_enqueues_request_once_witness :
  let rpc := {| rpc_uuid := "event-1"; rpc_method := "event";
                rpc_onSuccess := BaseEvent_onSuccess;
                rpc_onFailure := BaseEvent_onFailure;
                rpc_payload := ∅; rpc_context := 3%positive |} in
  generateRPC Sample.rpcMethod Sample.renderPayload spec_merge Sample.machine
    = (Return rpc,
       snd (generateRPC Sample.rpcMethod Sample.renderPayload spec_merge
              Sample.machine))
  /\ exists rpc' m',
       dispatch Sample.rpcMethod Sample.renderPayload spec_merge Sample.enqueue
         (Js.Function "s" false) Js.Null Sample.machine = (Return tt, m')
       /\ dispatchState m' = Sample.enqueue rpc' (dispatchState Sample.machine)
       /\ rpc_uuid rpc' = uuid (this Sample.machine)
       /\ rpc_context rpc' = rpc_context rpc
       /\ heap m' = heap (snd (generateRPC Sample.rpcMethod Sample.renderPayload
                                 spec_merge Sample.machine))
       /\ invoked m' = invoked Sample.machine.
Proof.
  intros rpc.
  assert (H : generateRPC Sample.rpcMethod Sample.renderPayload spec_merge
                Sample.machine
              = (Return rpc,
                 snd (generateRPC Sample.rpcMethod Sample.renderPayload spec_merge
                        Sample.machine)))
    by (vm_compute; reflexivity).
  split; [exact H|].
  exact (dispatch_enqueues_request_once Sample.rpcMethod Sample.renderPayload
           spec_merge Sample.enqueue (Js.Function "s" false) Js.Null
           Sample.machine rpc _ H).
Defined.

Lemma fresh_event_trampolines_do_nothing_witness :
  let ts := [Call_onFailure ERROR None (Some 500); Call_onSuccess OK] in
  this Sample.machine
    = fst (new Sample.local_context "event" None None (Some "event-1") Sample.env)
  /\ forallb is_trampoline ts = true
  /\ invoked (perform_all Sample.rpcMethod Sample.renderPayload spec_merge
                Sample.enqueue ts Sample.machine)
     = invoked Sample.machine.
Proof.
  intros ts. split; [reflexivity|]. split; [reflexivity|].
  apply (fresh_event_trampolines_do_nothing Sample.rpcMethod Sample.renderPayload
           spec_merge Sample.enqueue Sample.local_context "event" None None
           (Some "event-1") Sample.env Sample.machine ts); reflexivity.
Defined.

Lemma boot_then_ping_reply_witness :
  Boot.optedOut Sample.boot_state = false
  /\ Boot.messages
       (Boot.ping_callback 42 (Boot.set_optedOut true (Boot.boot Sample.boot_state)))
     = ["Sending initial telemetry ping...";
        "Telemetry service is online. Ping latency: 42ms."]
  /\ Boot.warnings
       (Boot.ping_callback 42 (Boot.set_optedOut true (Boot.boot Sample.boot_state)))
     = ["User opted-out of telemetry, skipping initial events."].
Proof.
  split; [reflexivity|].
  destruct (boot_then_ping_reply 42 true Sample.boot_state eq_refl)
    as (_ & Hm & Hw).
  split; [exact Hm | exact Hw].
Defined.

Lemma boot_opted_out_makes_no_ping_witness :
  let s := Boot.set_optedOut true Sample.boot_state in
  Boot.optedOut s = true
  /\ Boot.pings (Boot.boot s) = Boot.pings s
  /\ Boot.messages (Boot.boot s) = Boot.messages s
  /\ Boot.warnings (Boot.boot s)
     = Boot.warnings s ++ ["User opted-out of telemetry, skipping initial ping."].
Proof.
  intros s. split; [reflexivity|].
  destruct (boot_opted_out_makes_no_ping s eq_refl) as (H1 & H2 & H3 & _).
  repeat split; assumption.
Defined.

Lemma setup_failure_keeps_configuration_witness :
  ("acme" <> EmptyString /\ "downtown" <> EmptyString)
  /\ Setup.endpoints_telemetry
       (Setup.setup "https://telemetry.example" EmptyString "uptown" "key2"
          (Some "https://other.example")
          (Setup.setup "https://telemetry.example" "acme" "downtown" "key"
             (Some "https://override.example") Sample.setup_state))
     = "https://override.example".
Proof.
  assert (Hp : "acme" <> EmptyString) by discriminate.
  assert (Hl : "downtown" <> EmptyString) by discriminate.
  split; [by split|].
  destruct (setup_failure_keeps_configuration "https://telemetry.example"
              "acme" "downtown" "key" (Some "https://override.example")
              EmptyString "uptown" "key2" (Some "https://other.example")
              Sample.setup_state Hp Hl (or_introl eq_refl)) as [He _].
  exact He.
Defined.
End MoreInstances.

(** ** What the methods write *)

Section EventWrites.
Import Event.
Variable rpcMethod : BaseEvent -> Routine.
Variable renderPayload : BaseEvent -> option (gmap string string).
Variable proto_merge : loc -> loc -> HeapOp loc.
Variable telemetry_enqueue : TelemetryRPC -> Dispatch -> Dispatch.

Lemma slots_set_same e : slots_set (successCallback e) (failureCallback e) e = e.
Proof. by destruct e. Qed.

Lemma perform_writes_slots c m :
  exists s f,
    this (perform rpcMethod renderPayload proto_merge telemetry_enqueue c m)
      = slots_set s f (this m).
Proof.
  destruct c; simpl.
  - destruct (dispatch_frame rpcMethod renderPayload proto_merge telemetry_enqueue
                success failure m) as (-> & _). by eexists _, _.
  - unfold send.
    destruct (dispatch_frame rpcMethod renderPayload proto_merge telemetry_enqueue
                Js.Null Js.Null m) as (-> & _). by eexists _, _.
  - eexists _, _. symmetry. apply slots_set_same.
  - rewrite onSuccess_cases.
    destruct (successCallback (this m)) as [|name [|]|b] eqn:E; simpl;
      solve [ exists Js.Null, (failureCallback (this m)); by destruct (this m)
            | eexists _, _; symmetry; apply slots_set_same ].
  - rewrite onFailure_cases.
    destruct (failureCallback (this m)) as [|name [|]|b] eqn:E; simpl;
      solve [ exists (successCallback (this m)), Js.Null; by destruct (this m)
            | eexists _, _; symmetry; apply slots_set_same ].
  - eexists _, _. symmetry. apply slots_set_same.
  - eexists _, _. symmetry. apply slots_set_same.
  - destruct (renderContext_frame proto_merge global m) as (-> & _).
    eexists _, _. symmetry. apply slots_set_same.
  - destruct (generateRPC_frame rpcMethod renderPayload proto_merge m) as (-> & _).
    eexists _, _. symmetry. apply slots_set_same.
Qed.

(** X22.  Of the fields of an event, the methods write the two callback
    slots only: after any calls of them the identifier, the method, the
    context, the payload and the timestamp are those of construction, and
    [renderOccurrence] returns what it returned before. *)
Theorem methods_write_callback_slots_only cs now : forall m,
  let m' := perform_all rpcMethod renderPayload proto_merge telemetry_enqueue cs m in
  (exists s f, this m' = slots_set s f (this m))
  /\ fst (renderOccurrence now m') = fst (renderOccurrence now m).
Proof.
  induction cs as [|c cs IH]; intros m.
  - simpl. split; [|done]. eexists _, _. symmetry. apply slots_set_same.
  - unfold perform_all in *. cbn [fold_left].
    destruct (IH (perform rpcMethod renderPayload proto_merge telemetry_enqueue c m))
      as [(s & f & Hthis) Hocc].
    destruct (perform_writes_slots c m) as (s1 & f1 & Hstep).
    cbv zeta. split.
    + exists s, f. rewrite Hthis, Hstep. done.
    + rewrite Hocc. unfold renderOccurrence, gets. simpl. by rewrite Hstep.
Qed.
End EventWrites.
